(** * Analog_Buttons: decoding a resistor-ladder keypad on one analog pin

    Shallow embedding of [Analog_Buttons.cpp] and [Analog_Buttons.h]:
    the voltage-to-button resolver [determine_button] with its single
    precision arithmetic, and the debounce/repeat state machine
    [read_key] with its [unsigned long] timestamps. *)

From Stdlib Require Import ZArith QArith Qround Qabs Qpower Bool List Lia Lqa.
From Stdlib Require Import Floats.SpecFloat.
From Stdlib Require String Ascii DecimalString.
Import ListNotations String.StringSyntax.
Delimit Scope string_scope with string.
Local Open Scope Z_scope.

(** ** Arduino cores

    The sketch is compiled for an Arduino core.  Two things the source
    relies on differ between cores: the width of [int], and whether
    [double] is the 32-bit type of [float] (AVR) or IEEE binary64
    (the 32-bit ARM cores).  The literals [1023.0] and [1.0] of
    [determine_button] are [double]s, so the arithmetic around them is
    carried out in the core's [double]. *)

Inductive arduino_core := AVR | ARM.

Record float_format := { fprec : Z; femax : Z }.

Definition binary32 : float_format := {| fprec := 24; femax := 128 |}.
Definition binary64 : float_format := {| fprec := 53; femax := 1024 |}.

Definition double_format (c : arduino_core) : float_format :=
  match c with AVR => binary32 | ARM => binary64 end.

Definition int_bits (c : arduino_core) : Z :=
  match c with AVR => 16 | ARM => 32 end.

Definition INT_MAX (c : arduino_core) : Z := 2 ^ (int_bits c - 1) - 1.

(** ** IEEE 754 arithmetic

    Floating-point values are the [spec_float]s of the standard library,
    and every operation is the correctly rounded (round-to-nearest-even)
    one of [SpecFloat], at the precision of the C++ type it is computed
    in. *)

Module FP.

Definition add (f : float_format) := SFadd (fprec f) (femax f).
Definition sub (f : float_format) := SFsub (fprec f) (femax f).
Definition mul (f : float_format) := SFmul (fprec f) (femax f).
Definition div (f : float_format) := SFdiv (fprec f) (femax f).

(** Conversion of an integer, as in [(float)voltage_i], and the value of
    a literal with an integral value. *)
Definition of_Z (f : float_format) (z : Z) : spec_float :=
  binary_normalize (fprec f) (femax f) z 0 false.

(** Conversion between floating-point types ([float] to [double] in a
    mixed expression, [double] to [float] in an initialisation). *)
Definition cast (f : float_format) (x : spec_float) : spec_float :=
  match x with
  | S754_finite s m e => binary_round (fprec f) (femax f) s m e
  | _ => x
  end.

(** The rational number a floating-point datum stands for (0 for the
    infinities and NaN, which the resolver never produces). *)
Definition to_Q (x : spec_float) : Q :=
  match x with
  | S754_finite s m e => inject_Z (cond_Zopp s (Zpos m)) * 2 ^ e
  | _ => 0
  end%Q.

(** [roundf] followed by the conversion to [int]: the nearest integer,
    halfway cases away from zero.  For the magnitude [m * 2^e] with
    [e < 0] that is [floor (m * 2^e + 1/2)]; with [e >= 0] the value is
    integral already.  C++ leaves the conversion undefined when the
    integer does not fit in [int]; the model keeps the integer. *)
Definition round_half_away_mag (m : positive) (e : Z) : Z :=
  match e with
  | Zneg p => (Zpos m + 2 ^ (Zpos p - 1)) / 2 ^ Zpos p
  | _ => Zpos m * 2 ^ e
  end.

Definition roundf_to_int (x : spec_float) : Z :=
  match x with
  | S754_finite s m e => cond_Zopp s (round_half_away_mag m e)
  | _ => 0
  end.

End FP.

(** ** The hardware a call sees

    [analogRead] gives the converter's code for a pin and [millis] the
    milliseconds counter, an [unsigned long].  One call of [read_key] is
    much shorter than a millisecond: all the [millis( )] calls inside it
    read the same counter value. *)

Record Arduino := mkArduino {
  analogRead : Z -> Z;
  millis : Z
}.

(** [unsigned long] is 32 bits wide on every core; arithmetic in it wraps. *)
Definition ULONG_MODULUS : Z := 2 ^ 32.
Definition to_ulong (z : Z) : Z := z mod ULONG_MODULUS.
Definition ulong_add (a b : Z) : Z := to_ulong (a + b).

(** ** The class [Analog_Buttons] *)

Inductive keypad_state_t := KEYPAD_STATE_IDLE | KEYPAD_STATE_DEBOUNCING.

Record Analog_Buttons := mkAnalog_Buttons {
  pin : Z;
  number_buttons : Z;
  repeat_milliseconds : Z;
  debounce_milliseconds : Z;
  last_key : Z;
  keypad_state : keypad_state_t;
  debounce_timestamp : Z;
  repeating_timestamp : Z
}.

Definition SUPPLY_VOLTAGE : spec_float := FP.of_Z binary32 5.
Definition DEFAULT_DEBOUNCE_TIME : Z := 50.
Definition DEFAULT_REPEAT_TIME : Z := 0.

(** The overloaded [repeat] and [debounce] of the header: setters and
    getters. *)
Definition set_repeat (milliseconds : Z) (self : Analog_Buttons) : Analog_Buttons :=
  mkAnalog_Buttons (pin self) (number_buttons self) milliseconds
    (debounce_milliseconds self) (last_key self) (keypad_state self)
    (debounce_timestamp self) (repeating_timestamp self).

Definition set_debounce (milliseconds : Z) (self : Analog_Buttons) : Analog_Buttons :=
  mkAnalog_Buttons (pin self) (number_buttons self) (repeat_milliseconds self)
    milliseconds (last_key self) (keypad_state self)
    (debounce_timestamp self) (repeating_timestamp self).

Definition get_repeat (self : Analog_Buttons) : Z := repeat_milliseconds self.
Definition get_debounce (self : Analog_Buttons) : Z := debounce_milliseconds self.

(** Assignments to the state-machine variables. *)
Definition set_last_key (k : Z) (self : Analog_Buttons) : Analog_Buttons :=
  mkAnalog_Buttons (pin self) (number_buttons self) (repeat_milliseconds self)
    (debounce_milliseconds self) k (keypad_state self)
    (debounce_timestamp self) (repeating_timestamp self).

Definition set_keypad_state (p : keypad_state_t) (self : Analog_Buttons) : Analog_Buttons :=
  mkAnalog_Buttons (pin self) (number_buttons self) (repeat_milliseconds self)
    (debounce_milliseconds self) (last_key self) p
    (debounce_timestamp self) (repeating_timestamp self).

Definition set_debounce_timestamp (t : Z) (self : Analog_Buttons) : Analog_Buttons :=
  mkAnalog_Buttons (pin self) (number_buttons self) (repeat_milliseconds self)
    (debounce_milliseconds self) (last_key self) (keypad_state self)
    t (repeating_timestamp self).

Definition set_repeating_timestamp (t : Z) (self : Analog_Buttons) : Analog_Buttons :=
  mkAnalog_Buttons (pin self) (number_buttons self) (repeat_milliseconds self)
    (debounce_milliseconds self) (last_key self) (keypad_state self)
    (debounce_timestamp self) t.

(** The constructor ([pinMode] has no effect on what is modelled). *)
Definition Analog_Buttons_new (hw : Arduino) (pin_number number_of_buttons : Z)
  : Analog_Buttons :=
  let self :=
    mkAnalog_Buttons pin_number number_of_buttons 0 0 (-1) KEYPAD_STATE_IDLE 0 0 in
  let self := set_repeat DEFAULT_REPEAT_TIME self in
  let self := set_debounce DEFAULT_DEBOUNCE_TIME self in
  let self := set_last_key (-1) self in
  let self := set_keypad_state KEYPAD_STATE_IDLE self in
  set_debounce_timestamp (millis hw) (set_repeating_timestamp (millis hw) self).

(** *** [determine_button]

    [voltage] is [SUPPLY_VOLTAGE * (float)voltage_i / 1023.0]: a [float]
    product, divided in [double], stored in a [float].  [button_approx]
    is [(1.0 - voltage) * (float)number_buttons + voltage], computed in
    [double] and stored in a [float].  Every operation is rounded on its
    own: the product and the sum are not fused. *)

Definition voltage_of (c : arduino_core) (voltage_i : Z) : spec_float :=
  let D := double_format c in
  FP.cast binary32
    (FP.div D
       (FP.cast D (FP.mul binary32 SUPPLY_VOLTAGE (FP.of_Z binary32 voltage_i)))
       (FP.of_Z D 1023)).

Definition button_approx_of (c : arduino_core) (number_buttons voltage_i : Z)
  : spec_float :=
  let D := double_format c in
  let voltage := voltage_of c voltage_i in
  FP.cast binary32
    (FP.add D
       (FP.mul D
          (FP.sub D (FP.of_Z D 1) (FP.cast D voltage))
          (FP.cast D (FP.of_Z binary32 number_buttons)))
       (FP.cast D voltage)).

(** The value of [button] before the test against [number_buttons]. *)
Definition button_rounded (c : arduino_core) (number_buttons voltage_i : Z) : Z :=
  FP.roundf_to_int (button_approx_of c number_buttons voltage_i).

(** The resolver as a function of the button count and the sample. *)
Definition resolve (c : arduino_core) (number_buttons voltage_i : Z) : Z :=
  let button := button_rounded c number_buttons voltage_i in
  if button >? number_buttons then -1 else button.

Definition determine_button (c : arduino_core) (hw : Arduino)
  (self : Analog_Buttons) : Z :=
  let voltage_i := analogRead hw (pin self) in
  resolve c (number_buttons self) voltage_i.

(** *** [read_key]

    Returns the reported key and the object after the call. *)
Definition read_key (c : arduino_core) (hw : Arduino) (self : Analog_Buttons)
  : Z * Analog_Buttons :=
  let key_reported := determine_button c hw self in
  match keypad_state self with
  | KEYPAD_STATE_DEBOUNCING =>
      if millis hw >? ulong_add (debounce_timestamp self) (to_ulong (get_debounce self))
      then
        let self := set_last_key key_reported self in
        let self := set_repeating_timestamp (millis hw) self in
        let self := set_keypad_state KEYPAD_STATE_IDLE self in
        (key_reported, self)
      else (-1, self)
  | KEYPAD_STATE_IDLE =>
      if negb (last_key self =? key_reported)
      then
        let self := set_debounce_timestamp (millis hw) self in
        let self := set_keypad_state KEYPAD_STATE_DEBOUNCING self in
        (-1, self)
      else
        let repeat_time := get_repeat self in
        if repeat_time >? 0
        then
          if millis hw >? ulong_add (repeating_timestamp self) (to_ulong repeat_time)
          then
            let self := set_repeating_timestamp (millis hw) self in
            (key_reported, self)
          else (-1, self)
        else (-1, self)
  end.

(** The polling loop of a sketch: one [read_key] per pass, each pass with
    the hardware readings of its moment. *)
Fixpoint poll_all (c : arduino_core) (hws : list Arduino) (self : Analog_Buttons)
  : list Z * Analog_Buttons :=
  match hws with
  | [] => ([], self)
  | hw :: rest =>
      let '(key, self1) := read_key c hw self in
      let '(keys, self2) := poll_all c rest self1 in
      (key :: keys, self2)
  end.

(** ** The resolver as the specification words it

    Section 4.1 of the specification: the sample is scaled to a voltage,
    the voltage is divided by the supply voltage, and the ladder equation
    is inverted on that fraction, in exact arithmetic. *)

Definition round_half_away (q : Q) : Z :=
  if Qle_bool 0 q then Qfloor (q + (1 # 2)) else - Qfloor (- q + (1 # 2)).

Definition spec_resolver (supplyVoltage : Q) (sampleMax buttonCount s : Z) : Z :=
  let v := (supplyVoltage * inject_Z s / inject_Z sampleMax)%Q in
  let n_approx :=
    ((1 - v / supplyVoltage) * inject_Z buttonCount + v / supplyVoltage)%Q in
  let n := round_half_away n_approx in
  if n >? buttonCount then -1 else n.

(** ** Polling sequences *)

Definition sample_in_range (pin_number : Z) (hw : Arduino) : Prop :=
  0 <= analogRead hw pin_number <= 1023.

Fixpoint clock_nondecreasing (t : Z) (hws : list Arduino) : Prop :=
  match hws with
  | [] => True
  | hw :: rest => t <= millis hw /\ clock_nondecreasing (millis hw) rest
  end.

(** ** Auxiliary notions for the rounding analysis *)

(** The record [r] is what is left of the non-negative integer [M] after
    [k] right shifts: twice the quotient plus the round bit is the
    position of [2M / 2^k] among the half-integers, and the sticky bit
    tells whether anything lies below it. *)
Definition shr_inv (M k : Z) (r : shr_record) : Prop :=
  let h := 2 * shr_m r + (if shr_r r then 1 else 0) in
  0 <= shr_m r /\
  h * 2 ^ k <= 2 * M < (h + 1) * 2 ^ k /\
  (shr_s r = false -> 2 * M = h * 2 ^ k).

(** Powers of two and magnitudes in [Q]. *)
Definition pow2 (e : Z) : Q := (2 ^ e)%Q.
Definition mag (m : positive) (e : Z) : Q := (inject_Z (Zpos m) * pow2 e)%Q.

(** ** The parts of [button_approx_of], and checks on them

    The operands of the product and of the sum in [button_approx]: the
    difference [1.0 - voltage], the voltage as a [double] and the button
    count as a [double]. *)

Definition one_minus_voltage (c : arduino_core) (voltage_i : Z) : spec_float :=
  let D := double_format c in
  FP.sub D (FP.of_Z D 1) (FP.cast D (voltage_of c voltage_i)).

Definition voltage_as_double (c : arduino_core) (voltage_i : Z) : spec_float :=
  FP.cast (double_format c) (voltage_of c voltage_i).

Definition buttons_as_double (c : arduino_core) (number_buttons : Z) : spec_float :=
  FP.cast (double_format c) (FP.of_Z binary32 number_buttons).

(** A finite number of at most [p] digits with a magnitude in [lo, hi]. *)
Definition finite_within (p : Z) (lo hi : Q) (x : spec_float) : bool :=
  match x with
  | S754_finite _ m _ =>
      (Zpos (digits2_pos m) <=? p)
      && Qle_bool lo (Qabs (FP.to_Q x)) && Qle_bool (Qabs (FP.to_Q x)) hi
  | _ => false
  end.

Definition zero_or_finite_within (p : Z) (lo hi : Q) (x : spec_float) : bool :=
  match x with
  | S754_zero _ => true
  | _ => finite_within p lo hi x
  end.

(** What the analysis needs of the sample [s]: [1.0 - voltage] is between
    1/1024 and 4 in magnitude, and the voltage is 0 or between 1/256 and
    5 in magnitude. *)
Definition sample_ok (c : arduino_core) (s : Z) : bool :=
  finite_within (fprec (double_format c)) (1 # 1024) 4 (one_minus_voltage c s)
  && zero_or_finite_within (fprec (double_format c)) (1 # 256) 5 (voltage_as_double c s).

(** From a sample to the next, [1.0 - voltage] falls by at least 0.0048
    and the voltage rises by at most 0.0049. *)
Definition sample_step_ok (c : arduino_core) (s : Z) : bool :=
  Qle_bool (48 # 10000)
    (FP.to_Q (one_minus_voltage c s) - FP.to_Q (one_minus_voltage c (s + 1)))
  && Qle_bool
       (FP.to_Q (voltage_as_double c (s + 1)) - FP.to_Q (voltage_as_double c s))
       (49 # 10000).

Definition single_button_step_ok (c : arduino_core) (s : Z) : bool :=
  button_rounded c 1 (s + 1) <=? button_rounded c 1 s.

(** The codes of the 10-bit converter. *)
Definition samples : list Z := map Z.of_nat (seq 0 1024).

(** ** The conversion operator and the example sketch

    [operator int( )] of the header is [read_key]. *)
Definition operator_int (c : arduino_core) (hw : Arduino) (self : Analog_Buttons)
  : Z * Analog_Buttons :=
  read_key c hw self.

(** [Read_Analog_Buttons.ino]: the global [buttons] on pin [A0] with three
    buttons, and the text written to the serial port so far.  [A0] is the
    core's number for the pin. *)
Record Sketch := mkSketch {
  buttons : Analog_Buttons;
  Serial : String.string
}.

(** The construction of the global object, before [setup( )] runs. *)
Definition sketch_start (hw : Arduino) (A0 : Z) : Sketch :=
  mkSketch (Analog_Buttons_new hw A0 3) String.EmptyString.

(** [setup( )]: [Serial.begin] writes nothing; the repeat time becomes
    250 ms. *)
Definition setup (sk : Sketch) : Sketch :=
  mkSketch (set_repeat 250 (buttons sk)) (Serial sk).

(** [Serial.print] of a string and [Serial.println] of an [int]: the
    decimal digits, with a minus sign for a negative number, then carriage
    return and line feed. *)
Definition Serial_print (text : String.string) (sk : Sketch) : Sketch :=
  mkSketch (buttons sk) (String.append (Serial sk) text).

Definition CRLF : String.string :=
  String.String (Ascii.ascii_of_nat 13)
    (String.String (Ascii.ascii_of_nat 10) String.EmptyString).

Definition Serial_println_int (n : Z) (sk : Sketch) : Sketch :=
  Serial_print CRLF
    (Serial_print (DecimalString.NilZero.string_of_int (Z.to_int n)) sk).

(** [loop( )], one pass. *)
Definition loop (c : arduino_core) (hw : Arduino) (sk : Sketch) : Sketch :=
  let '(keypress, b) := operator_int c hw (buttons sk) in
  let sk := mkSketch b (Serial sk) in
  if negb (keypress =? -1)
  then Serial_println_int keypress (Serial_print "Keypress: "%string sk)
  else sk.

(** The passes of [loop( )], each with the hardware readings of its
    moment. *)
Fixpoint loops (c : arduino_core) (hws : list Arduino) (sk : Sketch) : Sketch :=
  match hws with
  | [] => sk
  | hw :: rest => loops c rest (loop c hw sk)
  end.

(** The line a reported key gives on the serial port. *)
Definition keypress_line (k : Z) : String.string :=
  String.append "Keypress: "%string
    (String.append (DecimalString.NilZero.string_of_int (Z.to_int k)) CRLF).

(** The lines a list of [read_key] results gives: one per result other
    than -1. *)
Fixpoint keypress_lines (keys : list Z) : String.string :=
  match keys with
  | [] => String.EmptyString
  | k :: rest =>
      if k =? -1 then keypress_lines rest
      else String.append (keypress_line k) (keypress_lines rest)
  end.

(** The least [int]. *)
Definition INT_MIN (c : arduino_core) : Z := - 2 ^ (int_bits c - 1).

(** The integers that are values of type [int].  The conversion
    [(int)roundf( button_approx )] is defined when the rounded value is
    one of them, and [button_rounded] is then the program's [button];
    for any other value C++ leaves the conversion undefined. *)
Definition fits_int (c : arduino_core) (z : Z) : Prop :=
  INT_MIN c <= z <= INT_MAX c.

(** ** Typing of the clock values

    A value of type [unsigned long]. *)
Definition is_ulong (z : Z) : Prop := 0 <= z < ULONG_MODULUS.

(** ** Theorems on the state machine *)

Section StateMachine.

Variable c : arduino_core.

Lemma to_ulong_small z : is_ulong z -> to_ulong z = z.
Proof. intros H. apply Z.mod_small. exact H. Qed.

Lemma ulong_add_small a b :
  0 <= a -> 0 <= b -> a + b < ULONG_MODULUS ->
  ulong_add a (to_ulong b) = a + b.
Proof.
  intros Ha Hb Hab. unfold ulong_add.
  rewrite (to_ulong_small b) by (unfold is_ulong; lia).
  apply to_ulong_small. unfold is_ulong. lia.
Qed.

Lemma read_key_debouncing hw self :
  keypad_state self = KEYPAD_STATE_DEBOUNCING ->
  read_key c hw self =
    if millis hw >? ulong_add (debounce_timestamp self) (to_ulong (get_debounce self))
    then (determine_button c hw self,
          set_keypad_state KEYPAD_STATE_IDLE
            (set_repeating_timestamp (millis hw)
               (set_last_key (determine_button c hw self) self)))
    else (-1, self).
Proof. intros H. unfold read_key. rewrite H. reflexivity. Qed.

Lemma read_key_idle_changed hw self :
  keypad_state self = KEYPAD_STATE_IDLE ->
  last_key self <> determine_button c hw self ->
  read_key c hw self =
    (-1, set_keypad_state KEYPAD_STATE_DEBOUNCING
           (set_debounce_timestamp (millis hw) self)).
Proof.
  intros H Hne. unfold read_key. rewrite H.
  destruct (Z.eqb_spec (last_key self) (determine_button c hw self)) as [E|E].
  - contradiction.
  - reflexivity.
Qed.

Lemma read_key_idle_steady hw self :
  keypad_state self = KEYPAD_STATE_IDLE ->
  last_key self = determine_button c hw self ->
  read_key c hw self =
    if (get_repeat self >? 0)
       && (millis hw >? ulong_add (repeating_timestamp self) (to_ulong (get_repeat self)))
    then (determine_button c hw self, set_repeating_timestamp (millis hw) self)
    else (-1, self).
Proof.
  intros H He. unfold read_key. rewrite H.
  rewrite (proj2 (Z.eqb_eq _ _) He). cbn [negb].
  destruct (get_repeat self >? 0); cbn [andb]; reflexivity.
Qed.

End StateMachine.

(** C1: in the DEBOUNCING phase, a poll whose clock value is past
    [debounce_timestamp + debounce_milliseconds] accepts the resolver's
    reading [r]: [last_key] becomes [r], [repeating_timestamp] becomes the
    clock value, the phase becomes IDLE and [r] is returned, whatever [r]
    is (so a release, [r = -1], is returned too); nothing else changes. *)
Theorem debounce_expired_accepts_reading
  (c : arduino_core) (hw : Arduino) (self : Analog_Buttons) :
  keypad_state self = KEYPAD_STATE_DEBOUNCING ->
  is_ulong (millis hw) ->
  is_ulong (debounce_timestamp self) ->
  0 <= debounce_milliseconds self ->
  millis hw > debounce_timestamp self + debounce_milliseconds self ->
  let r := determine_button c hw self in
  read_key c hw self =
    (r, mkAnalog_Buttons (pin self) (number_buttons self)
          (repeat_milliseconds self) (debounce_milliseconds self)
          r KEYPAD_STATE_IDLE (debounce_timestamp self) (millis hw)).
Proof.
  intros Hph [_ Hnow] [Hts _] Hdb Hgt r.
  rewrite read_key_debouncing by exact Hph.
  unfold get_debounce.
  rewrite ulong_add_small by lia.
  destruct (Z.gtb_spec (millis hw)
              (debounce_timestamp self + debounce_milliseconds self)) as [_|Hle].
  - reflexivity.
  - lia.
Qed.

Lemma debounce_expired_accepts_reading_witness :
  let hw := mkArduino (fun _ => 1023) 100 in
  let self := mkAnalog_Buttons 0 1 0 50 0 KEYPAD_STATE_DEBOUNCING 10 10 in
  millis hw > debounce_timestamp self + debounce_milliseconds self /\
  read_key AVR hw self =
    (1, mkAnalog_Buttons 0 1 0 50 1 KEYPAD_STATE_IDLE 10 100).
Proof.
  split.
  - reflexivity.
  - apply (debounce_expired_accepts_reading AVR
             (mkArduino (fun _ => 1023) 100)
             (mkAnalog_Buttons 0 1 0 50 0 KEYPAD_STATE_DEBOUNCING 10 10)).
    + reflexivity.
    + split; [discriminate | reflexivity].
    + split; [discriminate | reflexivity].
    + discriminate.
    + reflexivity.
Defined.

(** C7: with [repeat_milliseconds = 0] repeat is off.  In the IDLE phase a
    poll whose reading equals [last_key] returns -1 and changes nothing,
    whatever the clock value; so after an acceptance, any run of polls
    that keep reading the accepted key gives one event, the acceptance,
    followed by -1 only, and leaves the object as the acceptance left
    it. *)
Theorem repeat_disabled_never_fires
  (c : arduino_core) (self : Analog_Buttons) (hws : list Arduino) :
  repeat_milliseconds self = 0 ->
  Forall (fun hw => determine_button c hw self = last_key self) hws ->
  (keypad_state self = KEYPAD_STATE_IDLE ->
   poll_all c hws self = (map (fun _ => -1) hws, self)) /\
  (forall hw0,
     keypad_state self = KEYPAD_STATE_DEBOUNCING ->
     fst (read_key c hw0 self) = determine_button c hw0 self ->
     keypad_state (snd (read_key c hw0 self)) = KEYPAD_STATE_IDLE ->
     Forall (fun hw => determine_button c hw self = determine_button c hw0 self) hws ->
     poll_all c (hw0 :: hws) self =
       (determine_button c hw0 self :: map (fun _ => -1) hws,
        snd (read_key c hw0 self))).
Proof.
  intros Hrep.
  assert (Hidle : forall st l,
             repeat_milliseconds st = 0 ->
             keypad_state st = KEYPAD_STATE_IDLE ->
             Forall (fun hw => determine_button c hw st = last_key st) l ->
             poll_all c l st = (map (fun _ => -1) l, st)).
  { intros st l Hr Hph Hall.
    induction Hall as [|hw rest Hhd _ IH]; cbn [poll_all map].
    - reflexivity.
    - rewrite read_key_idle_steady by (exact Hph || (symmetry; exact Hhd)).
      unfold get_repeat. rewrite Hr. cbn [Z.gtb Z.compare andb].
      rewrite IH. reflexivity. }
  intros Hall. split.
  - intros Hph. apply Hidle; assumption.
  - intros hw0 Hph Hfst Hph' Hall'.
    cbn [poll_all].
    destruct (read_key c hw0 self) as [k st] eqn:E.
    cbn [fst snd] in *. subst k.
    rewrite read_key_debouncing in E by exact Hph.
    destruct (millis hw0 >? _) in E.
    + injection E as E. subst st.
      rewrite Hidle.
      * reflexivity.
      * exact Hrep.
      * reflexivity.
      * exact Hall'.
    + injection E as _ E. subst st. congruence.
Qed.

Lemma repeat_disabled_never_fires_witness :
  let self := mkAnalog_Buttons 0 1 0 50 1 KEYPAD_STATE_IDLE 10 100 in
  let hws := [mkArduino (fun _ => 1023) 200; mkArduino (fun _ => 1023) 4000000000] in
  repeat_milliseconds self = 0 /\
  poll_all AVR hws self = ([-1; -1], self).
Proof.
  split.
  - reflexivity.
  - refine (proj1 (repeat_disabled_never_fires AVR
                     (mkAnalog_Buttons 0 1 0 50 1 KEYPAD_STATE_IDLE 10 100)
                     [mkArduino (fun _ => 1023) 200;
                      mkArduino (fun _ => 1023) 4000000000]
                     eq_refl _) eq_refl).
    repeat constructor; vm_compute; reflexivity.
Defined.

(** C8: both clock comparisons are strict.  A poll at exactly
    [debounce_timestamp + debounce_milliseconds] in the DEBOUNCING phase
    returns -1 and changes nothing; a poll at exactly
    [repeating_timestamp + repeat_milliseconds] in the IDLE phase returns
    -1 and leaves [repeating_timestamp] alone; and, the boundary being a
    clock value, a poll that leaves the DEBOUNCING phase, or that moves
    [repeating_timestamp] in the IDLE phase, has a clock value strictly
    greater than the boundary. *)
Theorem clock_comparisons_are_strict
  (c : arduino_core) (hw : Arduino) (self : Analog_Buttons) :
  is_ulong (millis hw) ->
  is_ulong (debounce_timestamp self) ->
  is_ulong (repeating_timestamp self) ->
  0 <= debounce_milliseconds self ->
  0 <= repeat_milliseconds self ->
  (keypad_state self = KEYPAD_STATE_DEBOUNCING ->
   millis hw = debounce_timestamp self + debounce_milliseconds self ->
   read_key c hw self = (-1, self)) /\
  (keypad_state self = KEYPAD_STATE_IDLE ->
   millis hw = repeating_timestamp self + repeat_milliseconds self ->
   fst (read_key c hw self) = -1 /\
   repeating_timestamp (snd (read_key c hw self)) = repeating_timestamp self) /\
  (keypad_state self = KEYPAD_STATE_DEBOUNCING ->
   debounce_timestamp self + debounce_milliseconds self < ULONG_MODULUS ->
   keypad_state (snd (read_key c hw self)) = KEYPAD_STATE_IDLE ->
   millis hw > debounce_timestamp self + debounce_milliseconds self) /\
  (keypad_state self = KEYPAD_STATE_IDLE ->
   repeating_timestamp self + repeat_milliseconds self < ULONG_MODULUS ->
   repeating_timestamp (snd (read_key c hw self)) <> repeating_timestamp self ->
   millis hw > repeating_timestamp self + repeat_milliseconds self).
Proof.
  intros [Hn0 Hn1] [Hd0 Hd1] [Hr0 Hr1] Hdb Hrp.
  repeat split.
  - intros Hph Heq.
    rewrite read_key_debouncing by exact Hph. unfold get_debounce.
    rewrite ulong_add_small by lia.
    destruct (Z.gtb_spec (millis hw)
                (debounce_timestamp self + debounce_milliseconds self)); [lia|reflexivity].
  - destruct (Z.eq_dec (last_key self) (determine_button c hw self)) as [E|E].
    + rewrite read_key_idle_steady by assumption. unfold get_repeat.
      rewrite ulong_add_small by lia.
      destruct (Z.gtb_spec (millis hw)
                  (repeating_timestamp self + repeat_milliseconds self)); [lia|].
      rewrite andb_false_r. reflexivity.
    + rewrite read_key_idle_changed by assumption. reflexivity.
  - destruct (Z.eq_dec (last_key self) (determine_button c hw self)) as [E|E].
    + rewrite read_key_idle_steady by assumption. unfold get_repeat.
      rewrite ulong_add_small by lia.
      destruct (Z.gtb_spec (millis hw)
                  (repeating_timestamp self + repeat_milliseconds self)); [lia|].
      rewrite andb_false_r. reflexivity.
    + rewrite read_key_idle_changed by assumption. reflexivity.
  - intros Hph Hfit.
    rewrite read_key_debouncing by exact Hph. unfold get_debounce.
    rewrite ulong_add_small by lia.
    destruct (Z.gtb_spec (millis hw)
                (debounce_timestamp self + debounce_milliseconds self)) as [Hgt|Hle].
    + intros _. lia.
    + cbn [snd]. congruence.
  - intros Hph Hfit.
    destruct (Z.eq_dec (last_key self) (determine_button c hw self)) as [E|E].
    + rewrite read_key_idle_steady by assumption. unfold get_repeat.
      rewrite ulong_add_small by lia.
      destruct (Z.gtb_spec (millis hw)
                  (repeating_timestamp self + repeat_milliseconds self)) as [Hgt|Hle].
      * intros _. lia.
      * rewrite andb_false_r. cbn [snd]. congruence.
    + rewrite read_key_idle_changed by assumption. cbn. congruence.
Qed.

Lemma clock_comparisons_are_strict_witness :
  let hw := mkArduino (fun _ => 1023) 60 in
  let waiting := mkAnalog_Buttons 0 1 250 50 (-1) KEYPAD_STATE_DEBOUNCING 10 10 in
  let held := mkAnalog_Buttons 0 1 50 50 1 KEYPAD_STATE_IDLE 10 10 in
  (millis hw = debounce_timestamp waiting + debounce_milliseconds waiting /\
   read_key AVR hw waiting = (-1, waiting)) /\
  (millis hw = repeating_timestamp held + repeat_milliseconds held /\
   fst (read_key AVR hw held) = -1 /\
   repeating_timestamp (snd (read_key AVR hw held)) = repeating_timestamp held).
Proof.
  split; (split; [reflexivity|]).
  - apply (clock_comparisons_are_strict AVR
             (mkArduino (fun _ => 1023) 60)
             (mkAnalog_Buttons 0 1 250 50 (-1) KEYPAD_STATE_DEBOUNCING 10 10));
      try (split; [discriminate | reflexivity]); try discriminate; reflexivity.
  - apply (clock_comparisons_are_strict AVR
             (mkArduino (fun _ => 1023) 60)
             (mkAnalog_Buttons 0 1 50 50 1 KEYPAD_STATE_IDLE 10 10));
      try (split; [discriminate | reflexivity]); try discriminate; reflexivity.
Defined.

(** C9: a changed reading is never accepted by the poll that detects it.
    In the IDLE phase a poll whose reading [r] differs from [last_key]
    returns -1, sets the phase to DEBOUNCING and [debounce_timestamp] to
    the clock value, and changes nothing else, whatever
    [debounce_milliseconds] is; with [debounce_milliseconds = 0] any later
    poll with a greater clock value returns its reading. *)
Theorem change_is_staged_through_debouncing
  (c : arduino_core) (hw : Arduino) (self : Analog_Buttons) :
  keypad_state self = KEYPAD_STATE_IDLE ->
  determine_button c hw self <> last_key self ->
  let staged :=
    mkAnalog_Buttons (pin self) (number_buttons self)
      (repeat_milliseconds self) (debounce_milliseconds self)
      (last_key self) KEYPAD_STATE_DEBOUNCING (millis hw)
      (repeating_timestamp self) in
  read_key c hw self = (-1, staged) /\
  (forall hw',
     debounce_milliseconds self = 0 ->
     is_ulong (millis hw) -> is_ulong (millis hw') ->
     millis hw < millis hw' ->
     fst (read_key c hw' staged) = determine_button c hw' self /\
     last_key (snd (read_key c hw' staged)) = determine_button c hw' self).
Proof.
  intros Hph Hne staged. split.
  - rewrite read_key_idle_changed by (exact Hph || congruence). reflexivity.
  - intros hw' Hdb [Hn0 Hn1] [Hm0 Hm1] Hlt.
    rewrite read_key_debouncing by reflexivity.
    unfold get_debounce. cbn [debounce_timestamp debounce_milliseconds staged].
    rewrite ulong_add_small by lia.
    destruct (Z.gtb_spec (millis hw') (millis hw + debounce_milliseconds self)); [|lia].
    split; reflexivity.
Qed.

Lemma change_is_staged_through_debouncing_witness :
  let hw := mkArduino (fun _ => 0) 100 in
  let self := mkAnalog_Buttons 0 3 0 0 (-1) KEYPAD_STATE_IDLE 10 10 in
  determine_button AVR hw self <> last_key self /\
  read_key AVR hw self =
    (-1, mkAnalog_Buttons 0 3 0 0 (-1) KEYPAD_STATE_DEBOUNCING 100 10).
Proof.
  split.
  - discriminate.
  - apply (change_is_staged_through_debouncing AVR
             (mkArduino (fun _ => 0) 100)
             (mkAnalog_Buttons 0 3 0 0 (-1) KEYPAD_STATE_IDLE 10 10)).
    + reflexivity.
    + discriminate.
Defined.

(** C10: a repeat touches [repeating_timestamp] only.  In the IDLE phase,
    with the reading equal to [last_key], [repeat_milliseconds > 0] and a
    clock value past [repeating_timestamp + repeat_milliseconds], the poll
    returns the reading and the object afterwards differs from the one
    before in [repeating_timestamp] alone: the phase is still IDLE, and
    [last_key] and [debounce_timestamp] are as they were. *)
Theorem repeat_updates_only_its_anchor
  (c : arduino_core) (hw : Arduino) (self : Analog_Buttons) :
  keypad_state self = KEYPAD_STATE_IDLE ->
  determine_button c hw self = last_key self ->
  0 < repeat_milliseconds self ->
  is_ulong (millis hw) ->
  is_ulong (repeating_timestamp self) ->
  millis hw > repeating_timestamp self + repeat_milliseconds self ->
  read_key c hw self =
    (last_key self,
     mkAnalog_Buttons (pin self) (number_buttons self)
       (repeat_milliseconds self) (debounce_milliseconds self)
       (last_key self) KEYPAD_STATE_IDLE (debounce_timestamp self)
       (millis hw)).
Proof.
  intros Hph Heq Hrep [_ Hn1] [Hr0 _] Hgt.
  rewrite read_key_idle_steady by (exact Hph || congruence).
  unfold get_repeat.
  rewrite ulong_add_small by lia.
  destruct (Z.gtb_spec (repeat_milliseconds self) 0); [|lia].
  destruct (Z.gtb_spec (millis hw)
              (repeating_timestamp self + repeat_milliseconds self)); [|lia].
  cbn [andb]. unfold set_repeating_timestamp. rewrite Heq, Hph. reflexivity.
Qed.

Lemma repeat_updates_only_its_anchor_witness :
  let hw := mkArduino (fun _ => 0) 400 in
  let self := mkAnalog_Buttons 0 3 250 50 3 KEYPAD_STATE_IDLE 20 100 in
  millis hw > repeating_timestamp self + repeat_milliseconds self /\
  read_key AVR hw self =
    (3, mkAnalog_Buttons 0 3 250 50 3 KEYPAD_STATE_IDLE 20 400).
Proof.
  split.
  - reflexivity.
  - apply (repeat_updates_only_its_anchor AVR
             (mkArduino (fun _ => 0) 400)
             (mkAnalog_Buttons 0 3 250 50 3 KEYPAD_STATE_IDLE 20 100)).
    + reflexivity.
    + reflexivity.
    + reflexivity.
    + split; [discriminate | reflexivity].
    + split; [discriminate | reflexivity].
    + reflexivity.
Defined.

(** ** The accepted key along a run of polls *)

Lemma resolve_le_number_buttons c n s : -1 <= n -> resolve c n s <= n.
Proof.
  intros Hn. unfold resolve.
  destruct (Z.gtb_spec (button_rounded c n s) n); lia.
Qed.

Lemma read_key_config c hw self :
  pin (snd (read_key c hw self)) = pin self /\
  number_buttons (snd (read_key c hw self)) = number_buttons self.
Proof.
  unfold read_key.
  destruct (keypad_state self);
    repeat match goal with |- context [if ?b then _ else _] => destruct b end;
    split; reflexivity.
Qed.

Lemma read_key_last_key c hw self :
  last_key (snd (read_key c hw self)) = last_key self \/
  last_key (snd (read_key c hw self)) = determine_button c hw self.
Proof.
  unfold read_key.
  destruct (keypad_state self);
    repeat match goal with |- context [if ?b then _ else _] => destruct b end;
    cbn; auto.
Qed.

Lemma poll_all_cons c hw rest self :
  poll_all c (hw :: rest) self =
    (fst (read_key c hw self) :: fst (poll_all c rest (snd (read_key c hw self))),
     snd (poll_all c rest (snd (read_key c hw self)))).
Proof.
  cbn [poll_all]. destruct (read_key c hw self) as [k st]. cbn [fst snd].
  destruct (poll_all c rest st). reflexivity.
Qed.

Lemma poll_all_last_key c hws : forall self,
  pin (snd (poll_all c hws self)) = pin self /\
  number_buttons (snd (poll_all c hws self)) = number_buttons self /\
  (last_key (snd (poll_all c hws self)) = last_key self \/
   exists hw, In hw hws /\
     last_key (snd (poll_all c hws self)) = determine_button c hw self).
Proof.
  induction hws as [|hw rest IH]; intros self.
  - cbn. auto.
  - rewrite poll_all_cons. cbn [snd].
    destruct (IH (snd (read_key c hw self))) as (Hp & Hn & Hk).
    destruct (read_key_config c hw self) as [Hp1 Hn1].
    repeat split; try congruence.
    destruct Hk as [Hk | (hw' & Hin & Hk)].
    + destruct (read_key_last_key c hw self) as [E|E].
      * left. congruence.
      * right. exists hw. split; [left; reflexivity | congruence].
    + right. exists hw'. split; [right; exact Hin |].
      rewrite Hk. unfold determine_button. rewrite Hp1, Hn1. reflexivity.
Qed.

(** C4, as the specification states it, fails: with three buttons, the top
    button (sample 0) held past the debounce time is accepted as key 3,
    which is not in {-1, 0, 1, 2}. *)
Lemma last_key_reaches_number_buttons :
  let hw0 := mkArduino (fun _ => 1023) 0 in
  let hws := [mkArduino (fun _ => 0) 0; mkArduino (fun _ => 0) 51] in
  Forall (sample_in_range 0) hws /\
  clock_nondecreasing (millis hw0) hws /\
  last_key (snd (poll_all AVR hws (Analog_Buttons_new hw0 0 3))) = 3 /\
  ~ (-1 <= 3 <= 3 - 1).
Proof.
  cbv zeta. split; [|split; [|split]].
  - repeat constructor; discriminate.
  - cbn. repeat split; discriminate.
  - vm_compute. reflexivity.
  - lia.
Qed.

(** C4, amended: along every run of polls on a keypad constructed with
    [number_of_buttons >= 1], [last_key] never exceeds the number of
    buttons, and it is either -1, as the constructor left it, or the
    resolver's reading at one of the polls. *)
Theorem last_key_at_most_number_buttons
  (c : arduino_core) (hw0 : Arduino) (pin_number number_of_buttons : Z)
  (hws : list Arduino) :
  1 <= number_of_buttons ->
  let self := snd (poll_all c hws (Analog_Buttons_new hw0 pin_number number_of_buttons)) in
  last_key self <= number_of_buttons /\
  (last_key self = -1 \/
   exists hw, In hw hws /\
     last_key self = resolve c number_of_buttons (analogRead hw pin_number)).
Proof.
  intros Hn self.
  destruct (poll_all_last_key c hws (Analog_Buttons_new hw0 pin_number number_of_buttons))
    as (_ & _ & Hk).
  fold self in Hk.
  assert (Hchar : last_key self = -1 \/
                  exists hw, In hw hws /\
                    last_key self = resolve c number_of_buttons (analogRead hw pin_number)).
  { destruct Hk as [Hk | (hw & Hin & Hk)].
    - left. exact Hk.
    - right. exists hw. split; [exact Hin | exact Hk]. }
  split; [|exact Hchar].
  destruct Hchar as [E | (hw & _ & E)]; rewrite E.
  - lia.
  - apply resolve_le_number_buttons. lia.
Qed.

Lemma last_key_at_most_number_buttons_witness :
  let hw0 := mkArduino (fun _ => 1023) 0 in
  let hws := [mkArduino (fun _ => 0) 0; mkArduino (fun _ => 0) 51] in
  1 <= 3 /\
  last_key (snd (poll_all AVR hws (Analog_Buttons_new hw0 0 3))) <= 3.
Proof.
  split.
  - discriminate.
  - apply (last_key_at_most_number_buttons AVR (mkArduino (fun _ => 1023) 0) 0 3
             [mkArduino (fun _ => 0) 0; mkArduino (fun _ => 0) 51]).
    discriminate.
Defined.

(** ** Rounding in [SpecFloat]: error bounds

    What follows establishes, from the definitions of [SpecFloat], that a
    product, a sum or a conversion of numbers in the normal range is off
    by at most [2^-prec] of the exact result. *)

(** [digits2_pos m] is the number of binary digits of [m]. *)
Lemma digits2_pos_bounds (m : positive) :
  2 ^ (Zpos (digits2_pos m) - 1) <= Zpos m < 2 ^ Zpos (digits2_pos m).
Proof.
  induction m as [p IH | p IH |]; cbn [digits2_pos].
  - rewrite Pos2Z.inj_succ.
    replace (Z.succ (Zpos (digits2_pos p)) - 1) with (Z.succ (Zpos (digits2_pos p) - 1)) by lia.
    rewrite !Z.pow_succ_r by lia. lia.
  - rewrite Pos2Z.inj_succ.
    replace (Z.succ (Zpos (digits2_pos p)) - 1) with (Z.succ (Zpos (digits2_pos p) - 1)) by lia.
    rewrite !Z.pow_succ_r by lia. lia.
  - cbn. lia.
Qed.

Lemma digits2_pos_unique (m : positive) (k : Z) :
  2 ^ (k - 1) <= Zpos m < 2 ^ k -> Zpos (digits2_pos m) = k.
Proof.
  intros [Hlo Hhi].
  destruct (digits2_pos_bounds m) as [Dlo Dhi].
  set (d := Zpos (digits2_pos m)) in *.
  destruct (Z.lt_trichotomy d k) as [H|[H|H]]; [|exact H|].
  - assert (2 ^ d <= 2 ^ (k - 1)) by (apply Z.pow_le_mono_r; lia). lia.
  - assert (2 ^ k <= 2 ^ (d - 1)) by (apply Z.pow_le_mono_r; lia). lia.
Qed.

(** A property indexed by the number of steps taken is carried through
    the binary iteration of [iter_pos]. *)
Section IterPos.
Context {A : Type} (f : A -> A) (P : Z -> A -> Prop).
Hypothesis step : forall k x, 0 <= k -> P k x -> P (k + 1) (f x).

Lemma iter_pos_invariant (p : positive) :
  forall k x, 0 <= k -> P k x -> P (k + Zpos p) (iter_pos f p x).
Proof.
  induction p as [p IH | p IH |]; intros k x Hk Hx; cbn [iter_pos].
  - replace (k + Zpos p~1) with (k + 1 + Zpos p + Zpos p) by lia.
    apply IH; [lia|]. apply IH; [lia|]. apply step; assumption.
  - replace (k + Zpos p~0) with (k + Zpos p + Zpos p) by lia.
    apply IH; [lia|]. apply IH; assumption.
  - apply step; assumption.
Qed.
End IterPos.

Lemma shr_inv_init (M : Z) : 0 <= M -> shr_inv M 0 (Build_shr_record M false false).
Proof. intros H. unfold shr_inv. cbn. lia. Qed.

Lemma shr_inv_step (M k : Z) (r : shr_record) :
  0 <= k -> shr_inv M k r -> shr_inv M (k + 1) (shr_1 r).
Proof.
  intros Hk (Hm & Hb & Hs).
  destruct r as [m rb sb]. cbn [shr_m shr_r shr_s] in *.
  assert (P2 : 0 < 2 ^ k) by (apply Z.pow_pos_nonneg; lia).
  unfold shr_inv.
  rewrite Z.pow_add_r, Z.pow_1_r by lia.
  set (q := 2 ^ k) in *.
  destruct m as [|[p|p|]|p]; try lia; cbn [shr_1 shr_m shr_r shr_s];
    destruct rb, sb; cbn [orb]; (split; [lia|split; [nia|]]);
    intros E; try discriminate; specialize (Hs eq_refl); nia.
Qed.

(** [shr] shifts by [n] bits when [n] is positive, and not at all
    otherwise. *)
Lemma shr_spec (M e n : Z) :
  0 <= M ->
  exists r, shr (Build_shr_record M false false) e n = (r, e + Z.max 0 n) /\
            shr_inv M (Z.max 0 n) r.
Proof.
  intros HM. destruct n as [|p|p]; cbn [shr].
  - exists (Build_shr_record M false false). rewrite Z.add_0_r.
    split; [reflexivity | apply shr_inv_init; exact HM].
  - exists (iter_pos shr_1 p (Build_shr_record M false false)).
    replace (Z.max 0 (Zpos p)) with (0 + Zpos p) by lia.
    split; [reflexivity|].
    apply (iter_pos_invariant shr_1 (shr_inv M)).
    + intros k x Hk Hx. apply shr_inv_step; assumption.
    + lia.
    + apply shr_inv_init; exact HM.
  - exists (Build_shr_record M false false).
    replace (Z.max 0 (Zneg p)) with 0 by lia. rewrite Z.add_0_r.
    split; [reflexivity | apply shr_inv_init; exact HM].
Qed.

(** Rounding to nearest, ties to even, moves by at most half a unit. *)
Lemma round_nearest_even_spec (M k : Z) (r : shr_record) :
  0 <= k -> shr_inv M k r ->
  let m' := round_nearest_even (shr_m r) (loc_of_shr_record r) in
  shr_m r <= m' <= shr_m r + 1 /\
  - 2 ^ k <= 2 * (m' * 2 ^ k - M) <= 2 ^ k.
Proof.
  intros Hk (Hm & Hb & Hs).
  destruct r as [m rb sb]. cbn [shr_m shr_r shr_s] in *.
  assert (P2 : 0 < 2 ^ k) by (apply Z.pow_pos_nonneg; lia).
  set (q := 2 ^ k) in *.
  destruct rb, sb; cbn [loc_of_shr_record round_nearest_even];
    try destruct (Z.even m); try specialize (Hs eq_refl); split; nia.
Qed.

Section Rounding.

Variables prec emax : Z.
Hypothesis prec_gt_1 : 1 < prec.
Hypothesis prec_lt_emax : prec < emax.

Lemma fexp_normal (x : Z) :
  emin prec emax <= x - prec -> fexp prec emax x = x - prec.
Proof. unfold fexp. lia. Qed.

(** The core of every rounded operation: for an exact mantissa [m] at
    exponent [e], in the normal range and below the overflow threshold,
    [binary_round_aux] gives a finite number with the same sign, a
    mantissa of at most [prec] digits, and an error of at most [2^-prec]
    of the exact magnitude. *)
Lemma binary_round_aux_bound (sx : bool) (m : positive) (e : Z) :
  let d := Zpos (digits2_pos m) in
  emin prec emax <= d + e - prec ->
  d + e < emax ->
  (d <= prec -> e <= emax - prec) ->
  exists m3 e3,
    binary_round_aux prec emax sx (Zpos m) e loc_Exact = S754_finite sx m3 e3 /\
    e <= e3 /\
    Zpos (digits2_pos m3) <= prec /\
    Z.abs (Zpos m3 * 2 ^ (e3 - e) - Zpos m) * 2 ^ prec <= Zpos m.
Proof.
  intros d Hlo Hhi Hsmall.
  destruct (digits2_pos_bounds m) as [Dlo Dhi]. fold d in Dlo, Dhi.
  unfold binary_round_aux, shr_fexp.
  cbn [shr_record_of_loc Zdigits2]. fold d.
  rewrite fexp_normal by exact Hlo.
  destruct (shr_spec (Zpos m) e (d + e - prec - e)) as (r1 & E1 & I1); [lia|].
  rewrite E1.
  pose proof (round_nearest_even_spec _ _ _ (Z.le_max_l 0 _) I1) as [Hm' Herr].
  set (m' := round_nearest_even (shr_m r1) (loc_of_shr_record r1)) in *.
  set (k := Z.max 0 (d + e - prec - e)) in *.
  assert (P2 : 0 < 2 ^ k) by (apply Z.pow_pos_nonneg; lia).
  destruct I1 as (Hr1 & Hb1 & _).
  destruct (Z_le_gt_dec d prec) as [Hd|Hd].
  - (* no shift: the mantissa is kept *)
    assert (Hk : k = 0) by lia.
    rewrite Hk in *. rewrite Z.pow_0_r in *.
    assert (Em : m' = Zpos m) by lia.
    rewrite Em. cbn [Zdigits2]. fold d.
    rewrite fexp_normal by lia.
    destruct (shr_spec (Zpos m) (e + 0) (d + (e + 0) - prec - (e + 0))) as (r2 & E2 & I2); [lia|].
    rewrite E2.
    replace (Z.max 0 (d + (e + 0) - prec - (e + 0))) with 0 in * by lia.
    destruct I2 as (Hr2 & Hb2 & _). rewrite Z.pow_0_r in Hb2.
    assert (E3 : shr_m r2 = Zpos m) by (destruct (shr_r r2); lia).
    rewrite E3.
    assert (Hle : (e + 0 + 0 <=? emax - prec) = true) by (apply Z.leb_le; lia).
    rewrite Hle.
    exists m, (e + 0 + 0). split; [reflexivity|].
    split; [lia|]. split; [exact Hd|].
    replace (e + 0 + 0 - e) with 0 by lia. rewrite Z.pow_0_r.
    replace (Zpos m * 1 - Zpos m) with 0 by lia. cbn [Z.abs]. lia.
  - (* the mantissa is shifted right by [d - prec] bits and rounded *)
    assert (Hk : k = d - prec) by lia.
    assert (Epow : 2 ^ (d - 1) = 2 ^ (prec - 1) * 2 ^ k).
    { rewrite <- Z.pow_add_r by lia. f_equal. lia. }
    assert (Epow' : 2 ^ d = 2 ^ prec * 2 ^ k).
    { rewrite <- Z.pow_add_r by lia. f_equal. lia. }
    assert (Epp : 2 ^ prec = 2 * 2 ^ (prec - 1)).
    { rewrite <- Z.pow_succ_r by lia. f_equal. lia. }
    assert (Pp : 0 < 2 ^ (prec - 1)) by (apply Z.pow_pos_nonneg; lia).
    set (q := 2 ^ k) in *. set (pp := 2 ^ (prec - 1)) in *.
    assert (Hm1 : pp <= shr_m r1 < 2 * pp) by (destruct (shr_r r1); nia).
    assert (Hm2 : pp <= m' <= 2 * pp) by lia.
    destruct m' as [|m2|m2] eqn:Em'; try lia.
    cbn [Zdigits2].
    destruct (Z.eq_dec (Zpos m2) (2 * pp)) as [Htop|Htop].
    + (* the rounded mantissa has one bit too many *)
      assert (Dm2 : Zpos (digits2_pos m2) = prec + 1).
      { apply digits2_pos_unique. replace (prec + 1 - 1) with prec by lia.
        rewrite Z.pow_add_r, Z.pow_1_r by lia. lia. }
      rewrite Dm2. rewrite fexp_normal by lia.
      destruct (shr_spec (Zpos m2) (e + k) (prec + 1 + (e + k) - prec - (e + k))) as (r2 & E2 & I2); [lia|].
      rewrite E2.
      replace (Z.max 0 (prec + 1 + (e + k) - prec - (e + k))) with 1 in * by lia.
      destruct I2 as (Hr2 & Hb2 & _). rewrite Z.pow_1_r in Hb2.
      assert (E3 : shr_m r2 = pp) by (destruct (shr_r r2); lia).
      rewrite E3.
      destruct pp as [|p3|p3] eqn:Epp3; try lia.
      assert (Hle : (e + k + 1 <=? emax - prec) = true) by (apply Z.leb_le; lia).
      rewrite Hle.
      exists p3, (e + k + 1). split; [reflexivity|].
      split; [lia|]. split.
      * assert (Zpos (digits2_pos p3) = prec); [|lia].
        apply digits2_pos_unique. rewrite <- Epp3. fold pp. lia.
      * replace (e + k + 1 - e) with (k + 1) by lia.
        rewrite Z.pow_add_r, Z.pow_1_r by lia. fold q.
        replace (Zpos p3 * (q * 2) - Zpos m) with (Zpos m2 * q - Zpos m) by lia.
        nia.
    + assert (Dm2 : Zpos (digits2_pos m2) = prec).
      { apply digits2_pos_unique. fold pp. lia. }
      rewrite Dm2. rewrite fexp_normal by lia.
      destruct (shr_spec (Zpos m2) (e + k) (prec + (e + k) - prec - (e + k))) as (r2 & E2 & I2); [lia|].
      rewrite E2.
      replace (Z.max 0 (prec + (e + k) - prec - (e + k))) with 0 in * by lia.
      destruct I2 as (Hr2 & Hb2 & _). rewrite Z.pow_0_r in Hb2.
      assert (E3 : shr_m r2 = Zpos m2) by (destruct (shr_r r2); lia).
      rewrite E3.
      assert (Hle : (e + k + 0 <=? emax - prec) = true) by (apply Z.leb_le; lia).
      rewrite Hle.
      exists m2, (e + k + 0). split; [reflexivity|].
      split; [lia|]. split; [lia|].
      replace (e + k + 0 - e) with k by lia. fold q.
      nia.
Qed.

End Rounding.

(** ** Values in [Q] *)

Local Open Scope Q_scope.


Lemma pow2_pos (e : Z) : 0 < pow2 e.
Proof. apply Qpower_0_lt. reflexivity. Qed.

Lemma pow2_add (a b : Z) : pow2 (a + b) == pow2 a * pow2 b.
Proof. apply Qpower_plus. intros H. discriminate H. Qed.

Lemma pow2_inject (k : Z) : (0 <= k)%Z -> pow2 k == inject_Z (2 ^ k).
Proof. intros H. unfold pow2. rewrite Zpower_Qpower by exact H. reflexivity. Qed.

Lemma pow2_le (a b : Z) : (a <= b)%Z -> pow2 a <= pow2 b.
Proof.
  intros H.
  assert (E : pow2 b == pow2 a * pow2 (b - a)).
  { rewrite <- pow2_add. replace (a + (b - a))%Z with b by lia. reflexivity. }
  assert (H1 : 1 <= pow2 (b - a)).
  { rewrite pow2_inject by lia. change 1 with (inject_Z 1). rewrite <- Zle_Qle.
    assert (0 < 2 ^ (b - a))%Z by (apply Z.pow_pos_nonneg; lia). lia. }
  pose proof (pow2_pos a) as H0. rewrite E.
  generalize dependent (pow2 (b - a)). generalize dependent (pow2 a).
  intros x Hx y _ Hy. nra.
Qed.

Lemma pow2_lt_inv (a b : Z) : pow2 a < pow2 b -> (a < b)%Z.
Proof.
  intros H. destruct (Z_lt_le_dec a b) as [L|L]; [exact L|].
  pose proof (pow2_le b a L). lra.
Qed.

Lemma inject_Z_sub (a b : Z) : inject_Z (a - b) == inject_Z a - inject_Z b.
Proof.
  replace (a - b)%Z with (a + - b)%Z by lia.
  rewrite inject_Z_plus, inject_Z_opp. ring.
Qed.



Lemma mag_pos m e : 0 < mag m e.
Proof.
  unfold mag. pose proof (pow2_pos e).
  assert (0 < inject_Z (Zpos m)) by reflexivity. nra.
Qed.

Lemma to_Q_finite (s : bool) m e :
  FP.to_Q (S754_finite s m e) == if s then - mag m e else mag m e.
Proof.
  unfold FP.to_Q, mag, pow2. destruct s; cbn [cond_Zopp].
  - change (Z.opp (Zpos m)) with (- Zpos m)%Z. rewrite inject_Z_opp. ring.
  - reflexivity.
Qed.

Lemma mag_shift m e (j : Z) (m' : positive) :
  (0 <= j)%Z -> Zpos m' = (Zpos m * 2 ^ j)%Z -> mag m' (e - j) == mag m e.
Proof.
  intros Hj E. unfold mag. rewrite E, inject_Z_mult, <- pow2_inject by exact Hj.
  assert (E2 : pow2 e == pow2 j * pow2 (e - j)).
  { rewrite <- pow2_add. replace (j + (e - j))%Z with e by lia. reflexivity. }
  rewrite E2. ring.
Qed.

(** Bounds on the magnitude against the number of digits. *)
Lemma mag_digits m e :
  pow2 (Zpos (digits2_pos m) + e - 1) <= mag m e < pow2 (Zpos (digits2_pos m) + e).
Proof.
  destruct (digits2_pos_bounds m) as [Dlo Dhi].
  set (d := Zpos (digits2_pos m)) in *.
  assert (Hd : (1 <= d)%Z) by (unfold d; lia).
  unfold mag.
  rewrite Zle_Qle in Dlo. rewrite Zlt_Qlt in Dhi.
  rewrite <- pow2_inject in Dlo, Dhi by lia.
  replace (d + e - 1)%Z with ((d - 1) + e)%Z by lia.
  rewrite !pow2_add. pose proof (pow2_pos e). split; nra.
Qed.

Local Close Scope Q_scope.

Lemma iter_xO_spec (d m : positive) :
  Zpos (Pos.iter xO m d) = Zpos m * 2 ^ Zpos d.
Proof.
  induction d as [|d IH] using Pos.peano_ind.
  - cbn. lia.
  - rewrite Pos.iter_succ, Pos2Z.inj_succ, Z.pow_succ_r by lia.
    rewrite Pos2Z.inj_xO, IH. lia.
Qed.

Lemma shl_align_spec (mx : positive) (ex ex' : Z) :
  exists m', shl_align mx ex ex' = (m', Z.min ex ex') /\
             Zpos m' = Zpos mx * 2 ^ (ex - Z.min ex ex').
Proof.
  unfold shl_align.
  destruct (ex' - ex) as [|p|p] eqn:E.
  - exists mx. replace (Z.min ex ex') with ex by lia.
    rewrite Z.sub_diag, Z.pow_0_r. split; [reflexivity | lia].
  - exists mx. replace (Z.min ex ex') with ex by lia.
    rewrite Z.sub_diag, Z.pow_0_r. split; [reflexivity | lia].
  - exists (Pos.iter xO mx p). replace (Z.min ex ex') with ex' by lia.
    split; [reflexivity|]. rewrite iter_xO_spec. f_equal. f_equal. lia.
Qed.

Lemma digits2_pos_shift (m m' : positive) (j : Z) :
  0 <= j -> Zpos m' = Zpos m * 2 ^ j ->
  Zpos (digits2_pos m') = Zpos (digits2_pos m) + j.
Proof.
  intros Hj E. apply digits2_pos_unique.
  destruct (digits2_pos_bounds m) as [Dlo Dhi].
  assert (Hd : 1 <= Zpos (digits2_pos m)) by lia.
  set (d := Zpos (digits2_pos m)) in *.
  replace (d + j - 1) with ((d - 1) + j) by lia.
  rewrite !Z.pow_add_r by lia. rewrite E.
  assert (0 < 2 ^ j) by (apply Z.pow_pos_nonneg; lia). nia.
Qed.

Section Operations.

Variables prec emax : Z.
Hypothesis prec_gt_1 : 1 < prec.
Hypothesis prec_lt_emax : prec < emax.

Local Open Scope Q_scope.

(** The relative error of a rounding is at most [2^-prec]. *)
Lemma rounding_error_Q (m m3 : positive) (e e3 : Z) :
  (e <= e3)%Z ->
  (Z.abs (Zpos m3 * 2 ^ (e3 - e) - Zpos m) * 2 ^ prec <= Zpos m)%Z ->
  Qabs (mag m3 e3 - mag m e) * inject_Z (2 ^ prec) <= mag m e.
Proof.
  intros He Hz.
  assert (E : mag m3 e3 - mag m e ==
              inject_Z (Zpos m3 * 2 ^ (e3 - e) - Zpos m) * pow2 e).
  { unfold mag. rewrite inject_Z_sub, inject_Z_mult.
    rewrite <- pow2_inject by lia.
    assert (E2 : pow2 e3 == pow2 (e3 - e) * pow2 e).
    { rewrite <- pow2_add. replace (e3 - e + e)%Z with e3 by lia. reflexivity. }
    rewrite E2. ring. }
  rewrite E, Qabs_Qmult.
  rewrite (Qabs_pos (pow2 e)) by (apply Qlt_le_weak, pow2_pos).
  change (Qabs (inject_Z (Zpos m3 * 2 ^ (e3 - e) - Zpos m)))
    with (inject_Z (Z.abs (Zpos m3 * 2 ^ (e3 - e) - Zpos m))).
  rewrite Zle_Qle, inject_Z_mult in Hz.
  unfold mag. pose proof (pow2_pos e) as Hp. clear E.
  set (p := pow2 e) in *.
  set (a := inject_Z (Z.abs (Zpos m3 * 2 ^ (e3 - e) - Zpos m))) in *.
  set (t := inject_Z (2 ^ prec)) in *.
  set (b := inject_Z (Zpos m)) in *.
  clearbody p a t b. nra.
Qed.

Lemma binary_round_error (sx : bool) (m : positive) (e : Z) :
  let d := Zpos (digits2_pos m) in
  (emin prec emax <= d + e - prec)%Z ->
  (d + e < emax)%Z ->
  exists m3 e3,
    binary_round prec emax sx m e = S754_finite sx m3 e3 /\
    (Zpos (digits2_pos m3) <= prec)%Z /\
    Qabs (mag m3 e3 - mag m e) * inject_Z (2 ^ prec) <= mag m e.
Proof.
  intros d Hlo Hhi. unfold binary_round. fold d.
  rewrite (fexp_normal prec emax) by exact Hlo.
  destruct (shl_align_spec m e (d + e - prec)) as (mz & Ez & Hmz).
  rewrite Ez.
  set (ez := Z.min e (d + e - prec)) in *.
  assert (Dz : (Zpos (digits2_pos mz) = d + (e - ez))%Z).
  { apply digits2_pos_shift; [lia | exact Hmz]. }
  destruct (binary_round_aux_bound prec emax prec_gt_1 prec_lt_emax sx mz ez)
    as (m3 & e3 & E3 & He3 & Hd3 & Hz); try (rewrite Dz; lia).
  exists m3, e3. split; [exact E3|]. split; [exact Hd3|].
  assert (Em : mag mz (e - (e - ez)) == mag m e).
  { apply mag_shift; [lia | exact Hmz]. }
  replace (e - (e - ez))%Z with ez in Em by lia.
  rewrite <- Em. apply rounding_error_Q; assumption.
Qed.

Lemma Qabs_to_Q (s : bool) m e : Qabs (FP.to_Q (S754_finite s m e)) == mag m e.
Proof.
  rewrite to_Q_finite. pose proof (mag_pos m e). destruct s.
  - rewrite Qabs_neg by lra. ring.
  - apply Qabs_pos. lra.
Qed.

Lemma binary_round_value (sx : bool) (m : positive) (e lo hi : Z) :
  (emin prec emax + prec - 1 <= lo)%Z ->
  (hi <= emax - 1)%Z ->
  pow2 lo <= mag m e ->
  mag m e < pow2 hi ->
  exists m3 e3,
    binary_round prec emax sx m e = S754_finite sx m3 e3 /\
    (Zpos (digits2_pos m3) <= prec)%Z /\
    Qabs (mag m3 e3 - mag m e) * inject_Z (2 ^ prec) <= mag m e.
Proof.
  intros Zlo Zhi Hlo Hhi. destruct (mag_digits m e) as [Dlo Dhi].
  apply binary_round_error.
  - assert (lo < Zpos (digits2_pos m) + e)%Z; [|lia].
    apply pow2_lt_inv. lra.
  - assert (Zpos (digits2_pos m) + e - 1 < hi)%Z; [|lia].
    apply pow2_lt_inv. lra.
Qed.

(** Products of finite numbers. *)
Lemma SFmul_error (sx sy : bool) (mx my : positive) (ex ey lo H1 H2 : Z) :
  let x := S754_finite sx mx ex in
  let y := S754_finite sy my ey in
  (emin prec emax + prec - 1 <= lo)%Z ->
  pow2 lo <= mag mx ex * mag my ey ->
  mag mx ex < pow2 H1 ->
  mag my ey < pow2 H2 ->
  (H1 + H2 <= emax - prec)%Z ->
  exists m3 e3,
    SFmul prec emax x y = S754_finite (xorb sx sy) m3 e3 /\
    (Zpos (digits2_pos m3) <= prec)%Z /\
    Qabs (FP.to_Q (SFmul prec emax x y) - FP.to_Q x * FP.to_Q y) * inject_Z (2 ^ prec)
      <= Qabs (FP.to_Q x * FP.to_Q y).
Proof.
  intros x y Zlo Hlo Hx Hy HH.
  assert (Em : mag (mx * my) (ex + ey) == mag mx ex * mag my ey).
  { unfold mag. rewrite Pos2Z.inj_mul, inject_Z_mult, pow2_add. ring. }
  destruct (mag_digits (mx * my) (ex + ey)) as [Dlo Dhi].
  destruct (mag_digits mx ex) as [Dxlo _].
  destruct (mag_digits my ey) as [Dylo _].
  pose proof (mag_pos mx ex) as Px. pose proof (mag_pos my ey) as Py.
  assert (Hprod : mag (mx * my) (ex + ey) < pow2 (H1 + H2)).
  { rewrite Em, pow2_add.
    pose proof (pow2_pos H1). pose proof (pow2_pos H2).
    generalize dependent (mag mx ex). generalize dependent (mag my ey).
    generalize dependent (pow2 H1). generalize dependent (pow2 H2).
    intros. nra. }
  assert (Hex : (ex < H1)%Z).
  { apply pow2_lt_inv. apply Qle_lt_trans with (mag mx ex); [|exact Hx].
    apply Qle_trans with (pow2 (Zpos (digits2_pos mx) + ex - 1)); [|exact Dxlo].
    apply pow2_le. lia. }
  assert (Hey : (ey < H2)%Z).
  { apply pow2_lt_inv. apply Qle_lt_trans with (mag my ey); [|exact Hy].
    apply Qle_trans with (pow2 (Zpos (digits2_pos my) + ey - 1)); [|exact Dylo].
    apply pow2_le. lia. }
  destruct (binary_round_aux_bound prec emax prec_gt_1 prec_lt_emax (xorb sx sy)
              (mx * my) (ex + ey)) as (m3 & e3 & E3 & He3 & Hd3 & Hz).
  - assert (lo < Zpos (digits2_pos (mx * my)) + (ex + ey))%Z; [|lia].
    apply pow2_lt_inv. lra.
  - assert (Zpos (digits2_pos (mx * my)) + (ex + ey) - 1 < H1 + H2)%Z; [|lia].
    apply pow2_lt_inv. lra.
  - intros _. lia.
  - exists m3, e3. unfold x, y. cbn [SFmul].
    split; [exact E3|]. split; [exact Hd3|].
    rewrite E3.
    pose proof (rounding_error_Q _ _ _ _ He3 Hz) as Herr.
    rewrite Qabs_Qmult, !Qabs_to_Q, <- Em.
    assert (Ev : FP.to_Q (S754_finite (xorb sx sy) m3 e3)
                 - FP.to_Q (S754_finite sx mx ex) * FP.to_Q (S754_finite sy my ey)
                 == (if xorb sx sy then -1 else 1)
                    * (mag m3 e3 - mag (mx * my) (ex + ey))).
    { rewrite Em, !to_Q_finite. destruct sx, sy; cbn [xorb]; ring. }
    rewrite Ev, Qabs_Qmult.
    assert (E1 : Qabs (if xorb sx sy then -1 else 1) == 1)
      by (destruct (xorb sx sy); reflexivity).
    rewrite E1, Qmult_1_l. exact Herr.
Qed.

Lemma to_Q_aligned (s : bool) (m m' : positive) (e ez : Z) :
  (ez <= e)%Z -> Zpos m' = (Zpos m * 2 ^ (e - ez))%Z ->
  inject_Z (cond_Zopp s (Zpos m')) * pow2 ez == FP.to_Q (S754_finite s m e).
Proof.
  intros He E.
  assert (Em : mag m' (e - (e - ez)) == mag m e) by (apply mag_shift; [lia | exact E]).
  replace (e - (e - ez))%Z with ez in Em by lia.
  rewrite to_Q_finite.
  destruct s; cbn [cond_Zopp]; rewrite <- Em; unfold mag.
  - change (Z.opp (Zpos m')) with (- Zpos m')%Z. rewrite inject_Z_opp. ring.
  - reflexivity.
Qed.

Lemma exponent_lower_bound (m : positive) (e lo : Z) :
  (Zpos (digits2_pos m) <= prec)%Z ->
  pow2 lo <= mag m e -> (lo - prec + 1 <= e)%Z.
Proof.
  intros Hd Hlo. destruct (mag_digits m e) as [_ Dhi].
  assert (lo < Zpos (digits2_pos m) + e)%Z; [|lia].
  apply pow2_lt_inv. lra.
Qed.

(** Sums of finite numbers: the result is an exact zero, or the rounding
    of a sum that is at least one unit of the smaller exponent. *)
Lemma SFadd_error (sx sy : bool) (mx my : positive) (ex ey lo L H : Z) :
  let x := S754_finite sx mx ex in
  let y := S754_finite sy my ey in
  (Zpos (digits2_pos mx) <= prec)%Z ->
  (Zpos (digits2_pos my) <= prec)%Z ->
  (emin prec emax + prec - 1 <= L)%Z ->
  (L + prec - 1 <= lo)%Z ->
  (H + 1 < emax)%Z ->
  pow2 lo <= mag mx ex ->
  pow2 lo <= mag my ey ->
  mag mx ex < pow2 H ->
  mag my ey < pow2 H ->
  (SFadd prec emax x y = S754_zero false /\ FP.to_Q x + FP.to_Q y == 0) \/
  (exists s3 m3 e3,
     SFadd prec emax x y = S754_finite s3 m3 e3 /\
     (Zpos (digits2_pos m3) <= prec)%Z /\
     pow2 L <= Qabs (FP.to_Q x + FP.to_Q y) /\
     Qabs (FP.to_Q (SFadd prec emax x y) - (FP.to_Q x + FP.to_Q y)) * inject_Z (2 ^ prec)
       <= Qabs (FP.to_Q x + FP.to_Q y)).
Proof.
  intros x y Hdx Hdy HL Hlo HH Hxlo Hylo Hxhi Hyhi.
  pose proof (exponent_lower_bound _ _ _ Hdx Hxlo) as Hex.
  pose proof (exponent_lower_bound _ _ _ Hdy Hylo) as Hey.
  unfold x, y. cbn [SFadd].
  set (ez := Z.min ex ey).
  destruct (shl_align_spec mx ex ez) as (mx' & Ex & Hmx').
  destruct (shl_align_spec my ey ez) as (my' & Ey & Hmy').
  replace (Z.min ex ez) with ez in * by lia.
  replace (Z.min ey ez) with ez in * by lia.
  rewrite Ex, Ey. cbn [fst].
  pose proof (to_Q_aligned sx mx mx' ex ez ltac:(lia) Hmx') as Vx.
  pose proof (to_Q_aligned sy my my' ey ez ltac:(lia) Hmy') as Vy.
  set (z := (cond_Zopp sx (Zpos mx') + cond_Zopp sy (Zpos my'))%Z).
  assert (Vz : inject_Z z * pow2 ez == FP.to_Q x + FP.to_Q y).
  { unfold z, x, y. rewrite inject_Z_plus, <- Vx, <- Vy. ring. }
  fold x y in Vx, Vy. fold x y.
  pose proof (Qabs_to_Q sx mx ex) as Ax. pose proof (Qabs_to_Q sy my ey) as Ay.
  fold x in Ax. fold y in Ay.
  pose proof (Qabs_triangle (FP.to_Q x) (FP.to_Q y)) as Htri.
  pose proof (pow2_pos ez) as Pez.
  assert (Hpz : pow2 L <= pow2 ez) by (apply pow2_le; lia).
  assert (Hsum : Qabs (FP.to_Q x + FP.to_Q y) < pow2 (H + 1)).
  { rewrite pow2_add. change (pow2 1) with 2. lra. }
  assert (Hround : forall (s : bool) (m : positive),
             z = cond_Zopp s (Zpos m) ->
             exists m3 e3,
               binary_round prec emax s m ez = S754_finite s m3 e3 /\
               (Zpos (digits2_pos m3) <= prec)%Z /\
               pow2 L <= Qabs (FP.to_Q x + FP.to_Q y) /\
               Qabs (FP.to_Q (S754_finite s m3 e3) - (FP.to_Q x + FP.to_Q y)) * inject_Z (2 ^ prec)
                 <= Qabs (FP.to_Q x + FP.to_Q y)).
  { intros s m Ez.
    assert (Vm : FP.to_Q (S754_finite s m ez) == FP.to_Q x + FP.to_Q y).
    { rewrite <- Vz, Ez. reflexivity. }
    assert (Am : mag m ez == Qabs (FP.to_Q x + FP.to_Q y)).
    { rewrite <- Vm. symmetry. apply Qabs_to_Q. }
    destruct (mag_digits m ez) as [Dlo Dhi].
    assert (Hone : pow2 ez <= mag m ez).
    { unfold mag. assert (1 <= inject_Z (Zpos m)).
      { change 1 with (inject_Z 1). rewrite <- Zle_Qle. lia. }
      generalize dependent (inject_Z (Zpos m)). generalize dependent (pow2 ez).
      intros. nra. }
    destruct (binary_round_error s m ez) as (m3 & e3 & E3 & Hd3 & Herr).
    - lia.
    - assert (Zpos (digits2_pos m) + ez - 1 < H + 1)%Z; [|lia].
      apply pow2_lt_inv. lra.
    - exists m3, e3. split; [exact E3|].
      split; [exact Hd3|]. split; [lra|].
        rewrite <- Am.
        assert (Ev : FP.to_Q (S754_finite s m3 e3) - (FP.to_Q x + FP.to_Q y)
                     == (if s then -1 else 1) * (mag m3 e3 - mag m ez)).
        { rewrite <- Vm, !to_Q_finite. destruct s; ring. }
        rewrite Ev, Qabs_Qmult.
        assert (E1 : Qabs (if s then -1 else 1) == 1) by (destruct s; reflexivity).
        rewrite E1, Qmult_1_l. exact Herr. }
  unfold binary_normalize.
  destruct z as [|m|m] eqn:Ez.
  - left. split; [reflexivity|]. rewrite <- Vz. ring.
  - right. destruct (Hround false m eq_refl) as (m3 & e3 & E3 & R).
    exists false, m3, e3. rewrite E3. split; [reflexivity | exact R].
  - right. destruct (Hround true m eq_refl) as (m3 & e3 & E3 & R).
    exists true, m3, e3. rewrite E3. split; [reflexivity | exact R].
Qed.

End Operations.

(** ** Rounding to the nearest integer *)


Local Open Scope Q_scope.

Lemma Qfloor_unique (x : Q) (z : Z) :
  inject_Z z <= x -> x < inject_Z (z + 1) -> Qfloor x = z.
Proof.
  intros Hlo Hhi.
  pose proof (Qfloor_le x) as Flo. pose proof (Qlt_floor x) as Fhi.
  assert (H1 : (Qfloor x < z + 1)%Z) by (rewrite Zlt_Qlt; lra).
  assert (H2 : (z < Qfloor x + 1)%Z) by (rewrite Zlt_Qlt; lra).
  lia.
Qed.

Lemma round_half_away_mono (q1 q2 : Q) :
  q1 <= q2 -> (round_half_away q1 <= round_half_away q2)%Z.
Proof.
  intros H. unfold round_half_away.
  destruct (Qle_bool 0 q1) eqn:E1; destruct (Qle_bool 0 q2) eqn:E2.
  - apply Qfloor_resp_le. lra.
  - apply Qle_bool_iff in E1.
    assert (~ 0 <= q2) by (rewrite <- Qle_bool_iff; congruence). lra.
  - assert (N1 : ~ 0 <= q1) by (rewrite <- Qle_bool_iff; congruence).
    apply Qle_bool_iff in E2.
    assert (0 <= Qfloor (- q1 + (1 # 2)))%Z.
    { change 0%Z with (Qfloor 0). apply Qfloor_resp_le. lra. }
    assert (0 <= Qfloor (q2 + (1 # 2)))%Z.
    { change 0%Z with (Qfloor 0). apply Qfloor_resp_le. lra. }
    lia.
  - assert (Qfloor (- q2 + (1 # 2)) <= Qfloor (- q1 + (1 # 2)))%Z
      by (apply Qfloor_resp_le; lra).
    lia.
Qed.

Lemma pow2_neg_inject (p : positive) : pow2 (Zneg p) * inject_Z (2 ^ Zpos p) == 1.
Proof.
  rewrite <- pow2_inject by lia. rewrite <- pow2_add.
  replace (Zneg p + Zpos p)%Z with 0%Z by lia. reflexivity.
Qed.

Lemma round_half_away_mag_spec (m : positive) (e : Z) :
  Qfloor (mag m e + (1 # 2)) = FP.round_half_away_mag m e.
Proof.
  apply Qfloor_unique; unfold FP.round_half_away_mag, mag.
  - destruct e as [|p|p].
    + rewrite Z.pow_0_r, Z.mul_1_r. change (pow2 0) with 1. lra.
    + rewrite inject_Z_mult, <- pow2_inject by lia.
      pose proof (pow2_pos (Zpos p)). assert (0 < inject_Z (Zpos m)) by reflexivity.
      nra.
    + pose proof (pow2_neg_inject p) as E.
      assert (HD : (0 < 2 ^ Zpos p)%Z) by (apply Z.pow_pos_nonneg; lia).
      assert (Eh : (2 ^ Zpos p = 2 * 2 ^ (Zpos p - 1))%Z).
      { rewrite <- Z.pow_succ_r by lia. f_equal. lia. }
      pose proof (Z.mul_div_le (Zpos m + 2 ^ (Zpos p - 1)) (2 ^ Zpos p) HD) as Hq.
      set (z := ((Zpos m + 2 ^ (Zpos p - 1)) / 2 ^ Zpos p)%Z) in *.
      rewrite Eh in Hq at 1. rewrite Eh in E.
      rewrite Zle_Qle, !inject_Z_mult, inject_Z_plus in Hq.
      rewrite inject_Z_mult in E.
      assert (Hh : 0 < inject_Z (2 ^ (Zpos p - 1))).
      { change 0 with (inject_Z 0). rewrite <- Zlt_Qlt. apply Z.pow_pos_nonneg; lia. }
      change (inject_Z 2) with 2 in *.
      pose proof (pow2_pos (Zneg p)) as Hpq.
      generalize dependent (inject_Z (2 ^ (Zpos p - 1))).
      generalize dependent (pow2 (Zneg p)).
      generalize (inject_Z (Zpos m)). generalize (inject_Z z).
      intros zq mq pq Hpq hq E Hq Hh.
      assert (E2 : zq * (pq * (2 * hq)) == zq) by (rewrite E; ring).
      nra.
  - destruct e as [|p|p].
    + rewrite Z.pow_0_r, Z.mul_1_r. change (pow2 0) with 1.
      rewrite inject_Z_plus. change (inject_Z 1) with 1. lra.
    + rewrite inject_Z_plus, inject_Z_mult, <- pow2_inject by lia.
      change (inject_Z 1) with 1. lra.
    + pose proof (pow2_neg_inject p) as E.
      assert (HD : (0 < 2 ^ Zpos p)%Z) by (apply Z.pow_pos_nonneg; lia).
      assert (Eh : (2 ^ Zpos p = 2 * 2 ^ (Zpos p - 1))%Z).
      { rewrite <- Z.pow_succ_r by lia. f_equal. lia. }
      pose proof (Z.mod_pos_bound (Zpos m + 2 ^ (Zpos p - 1)) (2 ^ Zpos p) HD) as Hr.
      pose proof (Z.div_mod (Zpos m + 2 ^ (Zpos p - 1)) (2 ^ Zpos p) ltac:(lia)) as Hdm.
      set (z := ((Zpos m + 2 ^ (Zpos p - 1)) / 2 ^ Zpos p)%Z) in *.
      assert (Hq : (Zpos m + 2 ^ (Zpos p - 1) + 1 <= 2 * 2 ^ (Zpos p - 1) * (z + 1))%Z) by lia.
      rewrite Eh in E.
      rewrite Zle_Qle, !inject_Z_mult, !inject_Z_plus in Hq.
      rewrite inject_Z_mult in E. rewrite inject_Z_plus.
      assert (Hh : 0 < inject_Z (2 ^ (Zpos p - 1))).
      { change 0 with (inject_Z 0). rewrite <- Zlt_Qlt. apply Z.pow_pos_nonneg; lia. }
      change (inject_Z 2) with 2 in *. change (inject_Z 1) with 1 in *.
      pose proof (pow2_pos (Zneg p)) as Hpq.
      generalize dependent (inject_Z (2 ^ (Zpos p - 1))).
      generalize dependent (pow2 (Zneg p)).
      generalize (inject_Z (Zpos m)). generalize (inject_Z z).
      intros zq mq pq Hpq hq E Hq Hh.
      assert (E2 : zq * (pq * (2 * hq)) == zq) by (rewrite E; ring).
      nra.
Qed.

Lemma roundf_to_int_spec (s : bool) (m : positive) (e : Z) :
  FP.roundf_to_int (S754_finite s m e) = round_half_away (FP.to_Q (S754_finite s m e)).
Proof.
  unfold round_half_away. pose proof (mag_pos m e) as Hp.
  pose proof (to_Q_finite s m e) as E.
  cbn [FP.roundf_to_int]. destruct s; cbn [cond_Zopp].
  - assert (Hb : Qle_bool 0 (FP.to_Q (S754_finite true m e)) = false).
    { destruct (Qle_bool 0 (FP.to_Q (S754_finite true m e))) eqn:B; [|reflexivity].
      apply Qle_bool_iff in B. lra. }
    rewrite Hb. f_equal. rewrite <- round_half_away_mag_spec.
    apply Qfloor_comp. rewrite E. ring.
  - assert (Hb : Qle_bool 0 (FP.to_Q (S754_finite false m e)) = true).
    { apply Qle_bool_iff. lra. }
    rewrite Hb. rewrite <- round_half_away_mag_spec.
    apply Qfloor_comp. rewrite E. reflexivity.
Qed.

Local Close Scope Q_scope.

(** ** The resolver's samples, checked one by one *)

Lemma samples_complete (s : Z) : 0 <= s <= 1023 -> In s samples.
Proof.
  intros H. unfold samples. apply in_map_iff.
  exists (Z.to_nat s). split; [lia|]. apply in_seq. lia.
Qed.

Lemma all_samples_ok (c : arduino_core) (s : Z) :
  0 <= s <= 1023 -> sample_ok c s = true.
Proof.
  intros H.
  assert (A : forallb (sample_ok c) samples = true)
    by (destruct c; vm_compute; reflexivity).
  rewrite forallb_forall in A. apply A, samples_complete, H.
Qed.

Lemma all_sample_steps_ok (c : arduino_core) (s : Z) :
  0 <= s < 1023 -> sample_step_ok c s = true.
Proof.
  intros H.
  assert (A : forallb (fun s => (s =? 1023) || sample_step_ok c s) samples = true)
    by (destruct c; vm_compute; reflexivity).
  rewrite forallb_forall in A.
  specialize (A s (samples_complete s ltac:(lia))).
  destruct (Z.eqb_spec s 1023); [lia | exact A].
Qed.

Lemma all_single_button_steps_ok (c : arduino_core) (s : Z) :
  0 <= s < 1023 -> single_button_step_ok c s = true.
Proof.
  intros H.
  assert (A : forallb (fun s => (s =? 1023) || single_button_step_ok c s) samples = true)
    by (destruct c; vm_compute; reflexivity).
  rewrite forallb_forall in A.
  specialize (A s (samples_complete s ltac:(lia))).
  destruct (Z.eqb_spec s 1023); [lia | exact A].
Qed.

(** ** The error of [button_approx]

    For a button count [n >= 2] as a [double], [button_approx] is within
    [36 * n * 2^-24] of [a * n + v], where [a] is the computed
    [1.0 - voltage] and [v] the computed voltage. *)

Local Open Scope Q_scope.

Lemma pow2_lt (a b : Z) : (a < b)%Z -> pow2 a < pow2 b.
Proof.
  intros H.
  assert (H1 : pow2 (a + 1) <= pow2 b) by (apply pow2_le; lia).
  rewrite pow2_add in H1. change (pow2 1) with 2 in H1.
  pose proof (pow2_pos a). lra.
Qed.

Lemma finite_within_spec (p : Z) (lo hi : Q) (x : spec_float) :
  finite_within p lo hi x = true ->
  exists s m e,
    x = S754_finite s m e /\ (Zpos (digits2_pos m) <= p)%Z /\
    lo <= mag m e /\ mag m e <= hi.
Proof.
  destruct x as [| | |s m e]; try discriminate.
  cbn [finite_within]. rewrite !andb_true_iff, Z.leb_le, !Qle_bool_iff.
  rewrite Qabs_to_Q. intros [[Hd Hlo] Hhi].
  exists s, m, e. repeat split; assumption.
Qed.

(** A relative error of [2^-p], [p >= 24], against a bound on the exact
    value. *)
Lemma rel_error (x r ax bound : Q) (p : Z) :
  (24 <= p)%Z ->
  Qabs (r - x) * inject_Z (2 ^ p) <= ax ->
  ax <= bound ->
  - bound <= (r - x) * 16777216 /\ (r - x) * 16777216 <= bound.
Proof.
  intros Hp Herr Hb.
  assert (T : 16777216 <= inject_Z (2 ^ p)).
  { change 16777216 with (inject_Z (2 ^ 24)). rewrite <- Zle_Qle.
    apply Z.pow_le_mono_r; lia. }
  pose proof (Qabs_nonneg (r - x)) as D0.
  pose proof (Qle_Qabs (r - x)) as D1.
  pose proof (Qle_Qabs (- (r - x))) as D2. rewrite Qabs_opp in D2.
  set (d := Qabs (r - x)) in *. set (t := inject_Z (2 ^ p)) in *.
  clearbody d t. split; nra.
Qed.

Lemma rel_magnitude (x r ax : Q) (p : Z) :
  (24 <= p)%Z ->
  Qabs (r - x) * inject_Z (2 ^ p) <= ax ->
  ax == Qabs x ->
  Qabs x <= 2 * Qabs r /\ Qabs r <= 2 * Qabs x.
Proof.
  intros Hp Herr Eax.
  assert (T : 16777216 <= inject_Z (2 ^ p)).
  { change 16777216 with (inject_Z (2 ^ 24)). rewrite <- Zle_Qle.
    apply Z.pow_le_mono_r; lia. }
  pose proof (Qabs_nonneg (r - x)) as D0.
  pose proof (Qabs_triangle_reverse r x) as T1.
  pose proof (Qabs_triangle_reverse x r) as T2.
  rewrite (Qabs_Qminus x r) in T2.
  pose proof (Qabs_nonneg x) as X0.
  set (d := Qabs (r - x)) in *. set (t := inject_Z (2 ^ p)) in *.
  set (qx := Qabs x) in *. set (qr := Qabs r) in *.
  clearbody d t qx qr. split; nra.
Qed.

Lemma Qabs_near (x y d : Q) :
  - d <= x - y -> x - y <= d -> Qabs y - d <= Qabs x /\ Qabs x <= Qabs y + d.
Proof.
  intros H1 H2. apply (Qabs_case x); intros Hx; apply (Qabs_case y); intros Hy;
    split; lra.
Qed.

Section Approximation.

(** The format of [double]: at least binary32, at most 64 digits. *)
Variables pD eD : Z.
Hypothesis pD_lo : (24 <= pD)%Z.
Hypothesis pD_hi : (pD <= 64)%Z.
Hypothesis eD_lo : (128 <= eD)%Z.
Hypothesis eD_pD : (pD + 40 <= eD)%Z.

Let pD_gt_1 : (1 < pD)%Z.
Proof. lia. Qed.

Let pD_lt_eD : (pD < eD)%Z.
Proof. lia. Qed.

Lemma buttons_as_double_bounds (N : Z) :
  (2 <= N <= 2 ^ 31)%Z ->
  exists m e,
    FP.cast (Build_float_format pD eD) (FP.of_Z binary32 N) = S754_finite false m e /\
    19 # 10 <= mag m e /\ mag m e <= 4294967296.
Proof.
  intros HN. destruct N as [|p|p]; try lia.
  unfold FP.of_Z, binary_normalize. cbn [fprec femax binary32].
  assert (Ep : mag p 0 == inject_Z (Zpos p)).
  { unfold mag. change (pow2 0) with 1. ring. }
  assert (Hp : 2 <= inject_Z (Zpos p) /\ inject_Z (Zpos p) <= 2147483648).
  { change 2 with (inject_Z 2). change 2147483648 with (inject_Z (2 ^ 31)).
    rewrite <- !Zle_Qle. exact HN. }
  destruct (binary_round_value 24 128 ltac:(lia) ltac:(lia) false p 0 (-126) 127)
    as (m3 & e3 & E3 & _ & Herr3).
  - unfold emin. lia.
  - lia.
  - rewrite Ep. apply Qle_trans with (pow2 0); [apply pow2_le; lia|].
    change (pow2 0) with 1. lra.
  - rewrite Ep. apply Qle_lt_trans with (pow2 31); [|apply pow2_lt; lia].
    change (pow2 31) with 2147483648. lra.
  - rewrite E3. cbn [FP.cast fprec femax].
    destruct (rel_error _ _ _ _ 24 ltac:(lia) Herr3 (Qle_refl _)) as [L3 U3].
    rewrite Ep in L3, U3.
    destruct (binary_round_value pD eD pD_gt_1 pD_lt_eD false m3 e3 0 33)
      as (m4 & e4 & E4 & _ & Herr4).
    + unfold emin. lia.
    + lia.
    + change (pow2 0) with 1. lra.
    + change (pow2 33) with 8589934592. lra.
    + exists m4, e4. split; [exact E4|].
      destruct (rel_error _ _ _ _ pD pD_lo Herr4 (Qle_refl _)) as [L4 U4].
      split; lra.
Qed.

(** Storing a [double] in a [float]. *)
Lemma cast_to_float_error (s : bool) (m : positive) (e lo : Z) (hi : Q) :
  (-126 <= lo)%Z ->
  pow2 lo <= mag m e ->
  mag m e <= hi ->
  hi <= 1099511627776 ->
  let x := S754_finite s m e in
  - hi <= (FP.to_Q (FP.cast binary32 x) - FP.to_Q x) * 16777216 /\
  (FP.to_Q (FP.cast binary32 x) - FP.to_Q x) * 16777216 <= hi.
Proof.
  intros Zlo Hlo Hhi Hbig x. unfold x. cbn [FP.cast fprec femax binary32].
  destruct (binary_round_value 24 128 ltac:(lia) ltac:(lia) s m e lo 41)
    as (m3 & e3 & E3 & _ & Herr).
  - unfold emin. lia.
  - lia.
  - exact Hlo.
  - change (pow2 41) with 2199023255552. lra.
  - rewrite E3.
    assert (Ev : FP.to_Q (S754_finite s m3 e3) - FP.to_Q (S754_finite s m e)
                 == (if s then -1 else 1) * (mag m3 e3 - mag m e)).
    { rewrite !to_Q_finite. destruct s; ring. }
    destruct (rel_error _ _ _ _ 24 ltac:(lia) Herr Hhi) as [L U].
    rewrite Ev. destruct s; split; lra.
Qed.

Lemma button_approx_error (t1 vD : spec_float) (m : positive) (e : Z) :
  finite_within pD (1 # 1024) 4 t1 = true ->
  zero_or_finite_within pD (1 # 256) 5 vD = true ->
  19 # 10 <= mag m e ->
  mag m e <= 4294967296 ->
  let B := FP.cast binary32
             (SFadd pD eD (SFmul pD eD t1 (S754_finite false m e)) vD) in
  - (36 * mag m e)
    <= (FP.to_Q B - (FP.to_Q t1 * mag m e + FP.to_Q vD)) * 16777216 /\
  (FP.to_Q B - (FP.to_Q t1 * mag m e + FP.to_Q vD)) * 16777216
    <= 36 * mag m e.
Proof.
  intros Ht1 HvD Hnlo Hnhi. cbv zeta.
  destruct (finite_within_spec _ _ _ _ Ht1) as (sa & ma & ea & -> & _ & Halo & Hahi).
  set (n := mag m e) in *.
  set (a := FP.to_Q (S754_finite sa ma ea)).
  assert (En : FP.to_Q (S754_finite false m e) == n) by apply to_Q_finite.
  assert (Aa : Qabs a == mag ma ea) by apply Qabs_to_Q.
  (* the product *)
  destruct (SFmul_error pD eD pD_gt_1 pD_lt_eD sa false ma m ea e (-12) 3 33)
    as (mP & eP & EP & HdP & HerrP).
  { unfold emin. lia. }
  { change (pow2 (-12)) with (1 # 4096). fold n.
    generalize dependent (mag ma ea). intros. nra. }
  { change (pow2 3) with 8. lra. }
  { change (pow2 33) with 8589934592. fold n. lra. }
  { lia. }
  rewrite EP in HerrP |- *.
  set (P := FP.to_Q (S754_finite (xorb sa false) mP eP)) in *.
  fold a in HerrP.
  assert (Aan : Qabs (a * FP.to_Q (S754_finite false m e)) == mag ma ea * n).
  { rewrite Qabs_Qmult, Aa, En. rewrite (Qabs_pos n) by lra. reflexivity. }
  assert (Ban : mag ma ea * n <= 4 * n).
  { generalize dependent (mag ma ea). intros. nra. }
  assert (Lan : (1 # 1024) * n <= mag ma ea * n).
  { generalize dependent (mag ma ea). intros. nra. }
  rewrite Aan in HerrP.
  destruct (rel_error _ _ _ _ pD pD_lo HerrP Ban) as [LP UP].
  assert (EPn : P - a * FP.to_Q (S754_finite false m e) == P - a * n)
    by (rewrite En; reflexivity).
  rewrite EPn in LP, UP.
  assert (AP : Qabs P == mag mP eP) by apply Qabs_to_Q.
  assert (Aan' : Qabs (a * n) == mag ma ea * n).
  { rewrite Qabs_Qmult, Aa. rewrite (Qabs_pos n) by lra. reflexivity. }
  destruct (Qabs_near P (a * n) ((4 # 16777216) * n)) as [NPlo NPhi]; try lra.
  rewrite Aan', AP in NPlo, NPhi.
  (* the sum *)
  destruct vD as [sv| | |sv mv ev]; try discriminate.
  - (* the voltage is zero; the sum is the product *)
    cbn [SFadd].
    change (FP.to_Q (S754_zero sv)) with 0.
    destruct (cast_to_float_error (xorb sa false) mP eP (-12) (5 * n))
      as [LB UB]; try lia; try lra.
    { change (pow2 (-12)) with (1 # 4096). lra. }
    fold P in LB, UB. split; lra.
  - cbn [zero_or_finite_within] in HvD.
    destruct (finite_within_spec _ _ _ _ HvD)
      as (sv' & mv' & ev' & Ev & Hdv & Hvlo & Hvhi).
    injection Ev as <- <- <-.
    set (v := FP.to_Q (S754_finite sv mv ev)).
    assert (Av : Qabs v == mag mv ev) by apply Qabs_to_Q.
    pose proof (Qabs_triangle P v) as Tri. rewrite AP, Av in Tri.
    destruct (SFadd_error pD eD pD_gt_1 pD_lt_eD (xorb sa false) sv mP mv eP ev
                (-10) (- 9 - pD) 36)
      as [[EZ VZ] | (sS & mS & eS & ES & HdS & HloS & HerrS)];
      try assumption; try lia.
    { unfold emin. lia. }
    { change (pow2 (-10)) with (1 # 1024). lra. }
    { change (pow2 (-10)) with (1 # 1024). lra. }
    { change (pow2 36) with 68719476736. lra. }
    { change (pow2 36) with 68719476736. lra. }
    + (* the sum cancels exactly *)
      rewrite EZ. change (FP.to_Q (FP.cast binary32 (S754_zero false))) with 0.
      fold P v in VZ. split; lra.
    + rewrite ES in HerrS |- *. fold P v in HerrS, HloS.
      set (S := FP.to_Q (S754_finite sS mS eS)) in *.
      assert (AS : Qabs S == mag mS eS) by apply Qabs_to_Q.
      assert (BX : Qabs (P + v) <= 9 * n) by lra.
      destruct (rel_error _ _ _ _ pD pD_lo HerrS BX) as [LS US].
      destruct (rel_magnitude _ _ _ pD pD_lo HerrS (Qeq_refl _)) as [MS1 MS2].
      rewrite AS in MS1, MS2.
      assert (Hhalf : pow2 (- 10 - pD) <= mag mS eS).
      { assert (E2 : pow2 (- 9 - pD) == 2 * pow2 (- 10 - pD)).
        { replace (- 9 - pD)%Z with (1 + (- 10 - pD))%Z by lia.
          rewrite pow2_add. reflexivity. }
        lra. }
      destruct (cast_to_float_error sS mS eS (- 10 - pD) (18 * n))
        as [LB UB]; try lia; try lra.
      fold S in LB, UB. split; lra.
Qed.

End Approximation.

Local Close Scope Q_scope.

(** ** The rounded approximation falls as the sample rises

    With one button the 1023 steps are evaluated.  With two or more, the
    exact value [a * n + v] falls by at least [0.0048 * n - 0.0049] from a
    sample to the next, which is more than twice the error bound. *)

Lemma roundf_to_int_Q (x : spec_float) :
  FP.roundf_to_int x = round_half_away (FP.to_Q x).
Proof.
  destruct x as [s | s | | s m e]; try reflexivity.
  apply roundf_to_int_spec.
Qed.

Lemma INT_MAX_le (c : arduino_core) : INT_MAX c <= 2 ^ 31.
Proof. destruct c; vm_compute; discriminate. Qed.

Lemma button_approx_of_step (c : arduino_core) (N s : Z) :
  2 <= N <= INT_MAX c -> 0 <= s < 1023 ->
  (FP.to_Q (button_approx_of c N (s + 1)) <= FP.to_Q (button_approx_of c N s))%Q.
Proof.
  intros HN Hs.
  pose proof (INT_MAX_le c) as HM.
  pose proof (all_samples_ok c s ltac:(lia)) as Ok0.
  pose proof (all_samples_ok c (s + 1) ltac:(lia)) as Ok1.
  pose proof (all_sample_steps_ok c s Hs) as Step.
  unfold sample_ok in Ok0, Ok1. unfold sample_step_ok in Step.
  apply andb_true_iff in Ok0 as [Ha0 Hv0].
  apply andb_true_iff in Ok1 as [Ha1 Hv1].
  apply andb_true_iff in Step as [Hda Hdv].
  apply Qle_bool_iff in Hda, Hdv.
  change (button_approx_of c N s)
    with (FP.cast binary32
            (SFadd (fprec (double_format c)) (femax (double_format c))
               (SFmul (fprec (double_format c)) (femax (double_format c))
                  (one_minus_voltage c s) (buttons_as_double c N))
               (voltage_as_double c s))).
  change (button_approx_of c N (s + 1))
    with (FP.cast binary32
            (SFadd (fprec (double_format c)) (femax (double_format c))
               (SFmul (fprec (double_format c)) (femax (double_format c))
                  (one_minus_voltage c (s + 1)) (buttons_as_double c N))
               (voltage_as_double c (s + 1)))).
  assert (HD : (24 <= fprec (double_format c) /\ fprec (double_format c) <= 64 /\
                128 <= femax (double_format c) /\
                fprec (double_format c) + 40 <= femax (double_format c))%Z)
    by (destruct c; cbn; lia).
  destruct HD as (D1 & D2 & D3 & D4).
  destruct (buttons_as_double_bounds _ _ D1 D3 D4 N ltac:(lia))
    as (m & e & EN & Hnlo & Hnhi).
  change (FP.cast {| fprec := fprec (double_format c); femax := femax (double_format c) |}
            (FP.of_Z binary32 N))
    with (buttons_as_double c N) in EN.
  rewrite EN.
  destruct (button_approx_error _ _ D1 D2 D3 D4 _ _ m e Ha0 Hv0 Hnlo Hnhi) as [L0 _].
  destruct (button_approx_error _ _ D1 D2 D3 D4 _ _ m e Ha1 Hv1 Hnlo Hnhi) as [_ U1].
  set (B0 := FP.to_Q (FP.cast binary32 _)) in L0 |- *.
  set (B1 := FP.to_Q (FP.cast binary32 _)) in U1 |- *.
  set (n := mag m e) in *.
  set (a0 := FP.to_Q (one_minus_voltage c s)) in *.
  set (a1 := FP.to_Q (one_minus_voltage c (s + 1))) in *.
  set (v0 := FP.to_Q (voltage_as_double c s)) in *.
  set (v1 := FP.to_Q (voltage_as_double c (s + 1))) in *.
  clearbody B0 B1 n a0 a1 v0 v1.
  assert (Hprod : ((48 # 10000) * n <= a0 * n - a1 * n)%Q) by nra.
  lra.
Qed.

Lemma button_rounded_step (c : arduino_core) (N s : Z) :
  1 <= N <= INT_MAX c -> 0 <= s < 1023 ->
  button_rounded c N (s + 1) <= button_rounded c N s.
Proof.
  intros HN Hs.
  destruct (Z.eq_dec N 1) as [->|Hne].
  - apply Z.leb_le. exact (all_single_button_steps_ok c s Hs).
  - unfold button_rounded. rewrite !roundf_to_int_Q.
    apply round_half_away_mono, button_approx_of_step; lia.
Qed.

Lemma button_rounded_chain (c : arduino_core) (N s : Z) (k : nat) :
  1 <= N <= INT_MAX c -> 0 <= s -> s + Z.of_nat k <= 1023 ->
  button_rounded c N (s + Z.of_nat k) <= button_rounded c N s.
Proof.
  intros HN Hs. induction k as [|k IH]; intros Hle.
  - rewrite Z.add_0_r. apply Z.le_refl.
  - rewrite Nat2Z.inj_succ in *.
    replace (s + Z.succ (Z.of_nat k)) with (s + Z.of_nat k + 1) by lia.
    apply Z.le_trans with (button_rounded c N (s + Z.of_nat k)).
    + apply button_rounded_step; lia.
    + apply IH. lia.
Qed.

(** C6: for every number of buttons that is an [int] and at least 1, the
    rounded button approximation, before values above the number of
    buttons are replaced by -1, does not increase when the sample
    increases within 0..1023.  The statement is about the program's
    [button]: the samples compared are samples at which the conversion of
    the rounded value to [int] is defined; the conversion is then defined
    at every sample between them too, with a value between theirs. *)
Theorem button_rounded_nonincreasing (c : arduino_core) (N s1 s2 : Z) :
  1 <= N <= INT_MAX c ->
  0 <= s1 -> s1 <= s2 -> s2 <= 1023 ->
  fits_int c (button_rounded c N s1) ->
  fits_int c (button_rounded c N s2) ->
  button_rounded c N s2 <= button_rounded c N s1 /\
  (forall s, s1 <= s <= s2 ->
     fits_int c (button_rounded c N s) /\
     button_rounded c N s2 <= button_rounded c N s <= button_rounded c N s1).
Proof.
  intros HN H1 H12 H2 [F1lo F1hi] [F2lo F2hi].
  assert (Hmono : forall a b, 0 <= a -> a <= b -> b <= 1023 ->
                    button_rounded c N b <= button_rounded c N a).
  { intros a b Ha Hab Hb.
    replace b with (a + Z.of_nat (Z.to_nat (b - a))) by lia.
    apply button_rounded_chain; lia. }
  split.
  - apply Hmono; lia.
  - intros s Hs.
    pose proof (Hmono s1 s ltac:(lia) ltac:(lia) ltac:(lia)) as Hup.
    pose proof (Hmono s s2 ltac:(lia) ltac:(lia) ltac:(lia)) as Hdown.
    unfold fits_int. lia.
Qed.

Lemma button_rounded_nonincreasing_witness :
  1 <= 3 <= INT_MAX AVR /\
  fits_int AVR (button_rounded AVR 3 100) /\
  fits_int AVR (button_rounded AVR 3 900) /\
  button_rounded AVR 3 900 <= button_rounded AVR 3 100.
Proof.
  assert (F1 : fits_int AVR (button_rounded AVR 3 100))
    by (vm_compute; split; discriminate).
  assert (F2 : fits_int AVR (button_rounded AVR 3 900))
    by (vm_compute; split; discriminate).
  split; [vm_compute; split; discriminate|].
  split; [exact F1|]. split; [exact F2|].
  apply (button_rounded_nonincreasing AVR 3 100 900);
    try assumption; vm_compute; try split; discriminate.
Defined.

(** ** The resolver at the maximum sample

    With two buttons or more, [button_approx] at sample 1023 is about
    [5 - 4 * number_buttons], at most -5/2. *)

Lemma button_rounded_full_scale (c : arduino_core) (N : Z) :
  2 <= N <= INT_MAX c -> button_rounded c N 1023 <= -3.
Proof.
  intros HN.
  pose proof (INT_MAX_le c) as HM.
  pose proof (all_samples_ok c 1023 ltac:(lia)) as Ok.
  unfold sample_ok in Ok.
  apply andb_true_iff in Ok as [Ha Hv].
  assert (HD : (24 <= fprec (double_format c) /\ fprec (double_format c) <= 64 /\
                128 <= femax (double_format c) /\
                fprec (double_format c) + 40 <= femax (double_format c))%Z)
    by (destruct c; cbn; lia).
  destruct HD as (D1 & D2 & D3 & D4).
  destruct (buttons_as_double_bounds _ _ D1 D3 D4 N ltac:(lia))
    as (m & e & EN & Hnlo & Hnhi).
  change (FP.cast {| fprec := fprec (double_format c); femax := femax (double_format c) |}
            (FP.of_Z binary32 N))
    with (buttons_as_double c N) in EN.
  destruct (button_approx_error _ _ D1 D2 D3 D4 _ _ m e Ha Hv Hnlo Hnhi) as [_ U].
  rewrite <- EN in U.
  change (FP.cast binary32 _) with (button_approx_of c N 1023) in U.
  assert (Ea : (FP.to_Q (one_minus_voltage c 1023) == -4)%Q)
    by (destruct c; vm_compute; reflexivity).
  assert (Ev : (FP.to_Q (voltage_as_double c 1023) == 5)%Q)
    by (destruct c; vm_compute; reflexivity).
  rewrite Ea, Ev in U.
  unfold button_rounded. rewrite roundf_to_int_Q.
  change (-3) with (round_half_away (- (5 # 2))).
  apply round_half_away_mono.
  set (B := FP.to_Q (button_approx_of c N 1023)) in *.
  set (n := mag m e) in *. clearbody B n. lra.
Qed.

Lemma round_half_away_comp (q1 q2 : Q) :
  (q1 == q2)%Q -> round_half_away q1 = round_half_away q2.
Proof.
  intros E. apply Z.le_antisymm; apply round_half_away_mono; rewrite E; apply Qle_refl.
Qed.

Lemma spec_resolver_full_scale (N : Z) : 1 <= N -> spec_resolver 5 1023 N 1023 = 1.
Proof.
  intros HN. unfold spec_resolver.
  assert (E : ((1 - 5 * inject_Z 1023 / inject_Z 1023 / 5) * inject_Z N
               + 5 * inject_Z 1023 / inject_Z 1023 / 5 == 1)%Q).
  { setoid_replace (5 * inject_Z 1023 / inject_Z 1023 / 5)%Q with 1%Q by reflexivity.
    ring. }
  rewrite (round_half_away_comp _ _ E).
  change (round_half_away 1) with 1%Z.
  destruct (Z.gtb_spec 1 N); [lia | reflexivity].
Qed.

Lemma resolve_full_scale (c : arduino_core) (N : Z) :
  2 <= N <= INT_MAX c -> resolve c N 1023 <= -3.
Proof.
  intros HN. pose proof (button_rounded_full_scale c N HN) as H.
  unfold resolve. destruct (Z.gtb_spec (button_rounded c N 1023) N); lia.
Qed.

(** ** The resolver against the specification *)

(** C2: the resolver does not divide the voltage by the supply voltage
    before inverting the ladder equation.  With two buttons or more, at
    the maximum sample it returns -3 or less where the computation of the
    specification gives 1; at sample 512 with three buttons it returns -2
    where the specification gives 2. *)
Theorem resolver_uses_unscaled_voltage (c : arduino_core) (N : Z) :
  2 <= N <= INT_MAX c ->
  resolve c N 1023 <> spec_resolver 5 1023 N 1023 /\
  resolve c 3 512 = -2 /\ spec_resolver 5 1023 3 512 = 2.
Proof.
  intros HN. split; [|split].
  - pose proof (resolve_full_scale c N HN).
    rewrite spec_resolver_full_scale by lia. lia.
  - destruct c; vm_compute; reflexivity.
  - vm_compute. reflexivity.
Qed.

Lemma resolver_uses_unscaled_voltage_witness :
  2 <= 3 <= INT_MAX AVR /\
  resolve AVR 3 1023 <> spec_resolver 5 1023 3 1023.
Proof.
  split.
  - vm_compute. split; discriminate.
  - apply (resolver_uses_unscaled_voltage AVR 3).
    vm_compute. split; discriminate.
Defined.

(** C3: the resolver returns values that are neither a button index in
    [0, number_buttons] nor -1.  With two buttons or more it does so at
    the maximum sample; with three buttons it returns -5 at sample 818. *)
Theorem resolver_leaves_the_button_range (c : arduino_core) (N : Z) :
  2 <= N <= INT_MAX c ->
  (exists s, 0 <= s <= 1023 /\
             ~ (0 <= resolve c N s <= N) /\ resolve c N s <> -1) /\
  resolve c 3 818 = -5.
Proof.
  intros HN. split.
  - exists 1023. pose proof (resolve_full_scale c N HN). lia.
  - destruct c; vm_compute; reflexivity.
Qed.

Lemma resolver_leaves_the_button_range_witness :
  2 <= 3 <= INT_MAX AVR /\
  exists s, 0 <= s <= 1023 /\
            ~ (0 <= resolve AVR 3 s <= 3) /\ resolve AVR 3 s <> -1.
Proof.
  split.
  - vm_compute. split; discriminate.
  - apply (resolver_leaves_the_button_range AVR 3).
    vm_compute. split; discriminate.
Defined.

(** C5: at the maximum sample the resolver never returns -1: it returns 1
    with one button, and -3 or less with two buttons or more (-7 with
    three). *)
Theorem resolver_at_full_scale (c : arduino_core) (N : Z) :
  1 <= N <= INT_MAX c ->
  resolve c N 1023 <> -1 /\
  (N = 1 -> resolve c N 1023 = 1) /\
  (2 <= N -> resolve c N 1023 <= -3) /\
  resolve c 3 1023 = -7.
Proof.
  intros HN.
  assert (H1 : resolve c 1 1023 = 1) by (destruct c; vm_compute; reflexivity).
  assert (H3 : resolve c 3 1023 = -7) by (destruct c; vm_compute; reflexivity).
  destruct (Z.eq_dec N 1) as [->|Hne].
  - rewrite H1. repeat split; try assumption; lia.
  - pose proof (resolve_full_scale c N ltac:(lia)).
    repeat split; try assumption; lia.
Qed.

Lemma resolver_at_full_scale_witness :
  1 <= 3 <= INT_MAX AVR /\ resolve AVR 3 1023 <> -1.
Proof.
  split.
  - vm_compute. split; discriminate.
  - apply (resolver_at_full_scale AVR 3).
    vm_compute. split; discriminate.
Defined.

(** * Further properties of the code *)

(** ** Runs of polls *)

Lemma poll_all_app c (l1 l2 : list Arduino) : forall self,
  poll_all c (l1 ++ l2) self =
    (fst (poll_all c l1 self) ++ fst (poll_all c l2 (snd (poll_all c l1 self))),
     snd (poll_all c l2 (snd (poll_all c l1 self)))).
Proof.
  induction l1 as [|hw rest IH]; intros self.
  - cbn [app poll_all fst snd]. destruct (poll_all c l2 self). reflexivity.
  - cbn [app]. rewrite !poll_all_cons, IH. reflexivity.
Qed.

Lemma poll_all_idle_run c (l : list Arduino) (self : Analog_Buttons) :
  Forall (fun hw => read_key c hw self = (-1, self)) l ->
  poll_all c l self = (map (fun _ => -1) l, self).
Proof.
  induction 1 as [|hw rest Hhd _ IH].
  - reflexivity.
  - rewrite poll_all_cons, Hhd. cbn [fst snd map]. rewrite IH. reflexivity.
Qed.

Lemma read_key_full_config c hw self :
  pin (snd (read_key c hw self)) = pin self /\
  number_buttons (snd (read_key c hw self)) = number_buttons self /\
  repeat_milliseconds (snd (read_key c hw self)) = repeat_milliseconds self /\
  debounce_milliseconds (snd (read_key c hw self)) = debounce_milliseconds self.
Proof.
  unfold read_key.
  destruct (keypad_state self);
    repeat match goal with |- context [if ?b then _ else _] => destruct b end;
    repeat split; reflexivity.
Qed.

(** In the DEBOUNCING phase, a poll not past the boundary waits. *)
Lemma read_key_debouncing_waits c hw self :
  keypad_state self = KEYPAD_STATE_DEBOUNCING ->
  0 <= debounce_timestamp self ->
  0 <= debounce_milliseconds self ->
  debounce_timestamp self + debounce_milliseconds self < ULONG_MODULUS ->
  millis hw <= debounce_timestamp self + debounce_milliseconds self ->
  read_key c hw self = (-1, self).
Proof.
  intros Hph Hts Hdb Hfit Hle.
  rewrite read_key_debouncing by exact Hph. unfold get_debounce.
  rewrite ulong_add_small by lia.
  destruct (Z.gtb_spec (millis hw)
              (debounce_timestamp self + debounce_milliseconds self)); [lia|reflexivity].
Qed.

(** In the DEBOUNCING phase, a poll past the boundary accepts. *)
Lemma read_key_debouncing_accepts c hw self :
  keypad_state self = KEYPAD_STATE_DEBOUNCING ->
  0 <= debounce_timestamp self ->
  0 <= debounce_milliseconds self ->
  is_ulong (millis hw) ->
  millis hw > debounce_timestamp self + debounce_milliseconds self ->
  read_key c hw self =
    (determine_button c hw self,
     mkAnalog_Buttons (pin self) (number_buttons self)
       (repeat_milliseconds self) (debounce_milliseconds self)
       (determine_button c hw self) KEYPAD_STATE_IDLE
       (debounce_timestamp self) (millis hw)).
Proof.
  intros Hph Hts Hdb [Hn0 Hn1] Hgt.
  rewrite read_key_debouncing by exact Hph. unfold get_debounce.
  rewrite ulong_add_small by lia.
  destruct (Z.gtb_spec (millis hw)
              (debounce_timestamp self + debounce_milliseconds self)); [reflexivity|lia].
Qed.

(** In the IDLE phase, a poll that reads the settled key, with repeat off
    or not past the repeat boundary, waits. *)
Lemma read_key_steady_waits c hw self :
  keypad_state self = KEYPAD_STATE_IDLE ->
  determine_button c hw self = last_key self ->
  repeat_milliseconds self <= 0 \/
  (0 <= repeating_timestamp self /\
   repeating_timestamp self + repeat_milliseconds self < ULONG_MODULUS /\
   millis hw <= repeating_timestamp self + repeat_milliseconds self) ->
  read_key c hw self = (-1, self).
Proof.
  intros Hph Hkey Hcase.
  rewrite read_key_idle_steady by (exact Hph || congruence).
  unfold get_repeat.
  destruct (Z.gtb_spec (repeat_milliseconds self) 0) as [Hpos|Hnp]; [|reflexivity].
  destruct Hcase as [Hle | (Hr0 & Hfit & Hle)]; [lia|].
  rewrite ulong_add_small by lia.
  destruct (Z.gtb_spec (millis hw)
              (repeating_timestamp self + repeat_milliseconds self)); [lia|reflexivity].
Qed.

(** In the IDLE phase, a poll that reads the settled key past the repeat
    boundary repeats it. *)
Lemma read_key_steady_repeats c hw self :
  keypad_state self = KEYPAD_STATE_IDLE ->
  determine_button c hw self = last_key self ->
  0 < repeat_milliseconds self ->
  0 <= repeating_timestamp self ->
  is_ulong (millis hw) ->
  millis hw > repeating_timestamp self + repeat_milliseconds self ->
  read_key c hw self = (last_key self, set_repeating_timestamp (millis hw) self).
Proof.
  intros Hph Hkey Hrep Hr0 [Hn0 Hn1] Hgt.
  rewrite read_key_idle_steady by (exact Hph || congruence).
  unfold get_repeat. rewrite ulong_add_small by lia.
  destruct (Z.gtb_spec (repeat_milliseconds self) 0); [|lia].
  destruct (Z.gtb_spec (millis hw)
              (repeating_timestamp self + repeat_milliseconds self)); [|lia].
  cbn [andb]. rewrite Hkey. reflexivity.
Qed.

(** X1: polling never touches the configuration.  After any run of polls
    the pin, the number of buttons, the repeat time and the debounce time
    are what they were before it. *)
Theorem polls_keep_the_configuration
  (c : arduino_core) (hws : list Arduino) (self : Analog_Buttons) :
  let self' := snd (poll_all c hws self) in
  pin self' = pin self /\
  number_buttons self' = number_buttons self /\
  get_repeat self' = get_repeat self /\
  get_debounce self' = get_debounce self.
Proof.
  revert self. induction hws as [|hw rest IH]; intros self.
  - cbn. auto.
  - cbv zeta. rewrite poll_all_cons. cbn [snd].
    destruct (IH (snd (read_key c hw self))) as (H1 & H2 & H3 & H4).
    destruct (read_key_full_config c hw self) as (K1 & K2 & K3 & K4).
    unfold get_repeat, get_debounce in *.
    repeat split; congruence.
Qed.

(** X2: a reported key is the settled key.  Whenever [read_key] returns
    something other than -1, the value is the resolver's reading at this
    very call, and after the call [last_key] is that value, the phase is
    IDLE and [repeating_timestamp] is the clock value of the call. *)
Theorem reported_key_is_settled
  (c : arduino_core) (hw : Arduino) (self : Analog_Buttons) :
  fst (read_key c hw self) <> -1 ->
  fst (read_key c hw self) = determine_button c hw self /\
  last_key (snd (read_key c hw self)) = fst (read_key c hw self) /\
  keypad_state (snd (read_key c hw self)) = KEYPAD_STATE_IDLE /\
  repeating_timestamp (snd (read_key c hw self)) = millis hw.
Proof.
  unfold read_key.
  destruct (keypad_state self) eqn:Hph.
  - destruct (Z.eqb_spec (last_key self) (determine_button c hw self)) as [E|E];
      cbn [negb].
    + destruct (get_repeat self >? 0); [|cbn; congruence].
      destruct (millis hw >? _); [|cbn; congruence].
      intros _. cbn. auto.
    + cbn. congruence.
  - destruct (millis hw >? _); [|cbn; congruence].
    intros _. cbn. auto.
Qed.

Lemma reported_key_is_settled_witness :
  let hw := mkArduino (fun _ => 0) 100 in
  let self := mkAnalog_Buttons 0 3 0 50 (-1) KEYPAD_STATE_DEBOUNCING 10 10 in
  fst (read_key AVR hw self) <> -1 /\
  last_key (snd (read_key AVR hw self)) = fst (read_key AVR hw self).
Proof.
  split.
  - vm_compute. discriminate.
  - apply (reported_key_is_settled AVR
             (mkArduino (fun _ => 0) 100)
             (mkAnalog_Buttons 0 3 0 50 (-1) KEYPAD_STATE_DEBOUNCING 10 10)).
    vm_compute. discriminate.
Defined.

(** ** The debounce window *)

(** X3: readings taken during the debounce window count for nothing.  In
    the DEBOUNCING phase, polls whose clock values are not past
    [debounce_timestamp + debounce_milliseconds] return -1 and change
    nothing, whatever the pin reads at them; the first poll past the
    window then accepts its own reading, whatever was read when the
    window opened or since. *)
Theorem debounce_window_ignores_readings
  (c : arduino_core) (self : Analog_Buttons) (hws : list Arduino) (hw : Arduino) :
  keypad_state self = KEYPAD_STATE_DEBOUNCING ->
  is_ulong (debounce_timestamp self) ->
  0 <= debounce_milliseconds self ->
  Forall (fun h => millis h <= debounce_timestamp self + debounce_milliseconds self) hws ->
  is_ulong (millis hw) ->
  millis hw > debounce_timestamp self + debounce_milliseconds self ->
  poll_all c (hws ++ [hw]) self =
    (map (fun _ => -1) hws ++ [determine_button c hw self],
     mkAnalog_Buttons (pin self) (number_buttons self)
       (repeat_milliseconds self) (debounce_milliseconds self)
       (determine_button c hw self) KEYPAD_STATE_IDLE
       (debounce_timestamp self) (millis hw)).
Proof.
  intros Hph [Hts Hts'] Hdb Hwin Hn Hgt.
  assert (Hrun : poll_all c hws self = (map (fun _ => -1) hws, self)).
  { apply poll_all_idle_run. apply Forall_impl with (2 := Hwin).
    intros h Hh. destruct Hn as [_ Hn].
    apply read_key_debouncing_waits; assumption || lia. }
  rewrite poll_all_app, Hrun. cbn [fst snd poll_all].
  rewrite read_key_debouncing_accepts by assumption.
  reflexivity.
Qed.

Lemma debounce_window_ignores_readings_witness :
  let self := mkAnalog_Buttons 0 3 0 50 (-1) KEYPAD_STATE_DEBOUNCING 10 10 in
  let hws := [mkArduino (fun _ => 1023) 20; mkArduino (fun _ => 300) 60] in
  let hw := mkArduino (fun _ => 0) 61 in
  millis hw > debounce_timestamp self + debounce_milliseconds self /\
  poll_all AVR (hws ++ [hw]) self =
    ([-1; -1; 3], mkAnalog_Buttons 0 3 0 50 3 KEYPAD_STATE_IDLE 10 61).
Proof.
  split.
  - reflexivity.
  - refine (debounce_window_ignores_readings AVR
              (mkAnalog_Buttons 0 3 0 50 (-1) KEYPAD_STATE_DEBOUNCING 10 10)
              [mkArduino (fun _ => 1023) 20; mkArduino (fun _ => 300) 60]
              (mkArduino (fun _ => 0) 61) eq_refl _ _ _ _ _).
    + split; [discriminate | reflexivity].
    + discriminate.
    + repeat constructor; discriminate.
    + split; [discriminate | reflexivity].
    + reflexivity.
Defined.

(** ** The repeat cadence *)

(** X4: repeats are more than [repeat_milliseconds] apart.  In the IDLE
    phase with the repeat time positive, polls that read the settled key
    at clock values not past [repeating_timestamp + repeat_milliseconds]
    return -1 and change nothing; the first such poll past it returns the
    key and moves [repeating_timestamp] to its clock value. *)
Theorem repeats_are_spaced
  (c : arduino_core) (self : Analog_Buttons) (hws : list Arduino) (hw : Arduino) :
  keypad_state self = KEYPAD_STATE_IDLE ->
  0 < repeat_milliseconds self ->
  is_ulong (repeating_timestamp self) ->
  Forall (fun h => determine_button c h self = last_key self /\
                   millis h <= repeating_timestamp self + repeat_milliseconds self) hws ->
  determine_button c hw self = last_key self ->
  is_ulong (millis hw) ->
  millis hw > repeating_timestamp self + repeat_milliseconds self ->
  poll_all c (hws ++ [hw]) self =
    (map (fun _ => -1) hws ++ [last_key self],
     set_repeating_timestamp (millis hw) self).
Proof.
  intros Hph Hrep [Hr0 Hr1] Hwin Hkey Hn Hgt.
  assert (Hrun : poll_all c hws self = (map (fun _ => -1) hws, self)).
  { apply poll_all_idle_run. apply Forall_impl with (2 := Hwin).
    intros h [Hk Hh]. destruct Hn as [_ Hn].
    apply read_key_steady_waits; [exact Hph | exact Hk | right; lia]. }
  rewrite poll_all_app, Hrun. cbn [fst snd poll_all].
  rewrite read_key_steady_repeats by assumption.
  reflexivity.
Qed.

Lemma repeats_are_spaced_witness :
  let self := mkAnalog_Buttons 0 3 250 50 3 KEYPAD_STATE_IDLE 20 100 in
  let hws := [mkArduino (fun _ => 0) 200; mkArduino (fun _ => 0) 350] in
  let hw := mkArduino (fun _ => 0) 351 in
  millis hw > repeating_timestamp self + repeat_milliseconds self /\
  poll_all AVR (hws ++ [hw]) self =
    ([-1; -1; 3], mkAnalog_Buttons 0 3 250 50 3 KEYPAD_STATE_IDLE 20 351).
Proof.
  split.
  - reflexivity.
  - refine (repeats_are_spaced AVR
              (mkAnalog_Buttons 0 3 250 50 3 KEYPAD_STATE_IDLE 20 100)
              [mkArduino (fun _ => 0) 200; mkArduino (fun _ => 0) 350]
              (mkArduino (fun _ => 0) 351) eq_refl eq_refl _ _ _ _ _).
    + split; [discriminate | reflexivity].
    + repeat constructor; (vm_compute; reflexivity) || discriminate.
    + vm_compute. reflexivity.
    + split; [discriminate | reflexivity].
    + reflexivity.
Defined.

(** X5: a negative repeat time switches repeat off, as 0 does.  In the
    IDLE phase with [repeat_milliseconds <= 0], any run of polls that read
    the settled key returns -1 only and changes nothing. *)
Theorem nonpositive_repeat_never_fires
  (c : arduino_core) (self : Analog_Buttons) (hws : list Arduino) :
  keypad_state self = KEYPAD_STATE_IDLE ->
  repeat_milliseconds self <= 0 ->
  Forall (fun h => determine_button c h self = last_key self) hws ->
  poll_all c hws self = (map (fun _ => -1) hws, self).
Proof.
  intros Hph Hrep Hall.
  apply poll_all_idle_run. apply Forall_impl with (2 := Hall).
  intros h Hk.
  apply read_key_steady_waits; [exact Hph | exact Hk | left; exact Hrep].
Qed.

Lemma nonpositive_repeat_never_fires_witness :
  let self := mkAnalog_Buttons 0 3 (-250) 50 3 KEYPAD_STATE_IDLE 20 100 in
  let hws := [mkArduino (fun _ => 0) 200; mkArduino (fun _ => 0) 4000000000] in
  repeat_milliseconds self <= 0 /\
  poll_all AVR hws self = ([-1; -1], self).
Proof.
  split.
  - discriminate.
  - refine (nonpositive_repeat_never_fires AVR
              (mkAnalog_Buttons 0 3 (-250) 50 3 KEYPAD_STATE_IDLE 20 100)
              [mkArduino (fun _ => 0) 200; mkArduino (fun _ => 0) 4000000000]
              eq_refl _ _).
    + discriminate.
    + repeat constructor; vm_compute; reflexivity.
Defined.

(** ** Boundaries that are not clock values *)

(** X6: a debounce window that runs over the end of the 32-bit counter is
    cut short.  When [debounce_timestamp + debounce_milliseconds] is
    [2^32] or more, the sum wraps around, and a poll in the DEBOUNCING
    phase whose clock value has not wrapped yet (it is at least
    [debounce_timestamp]) accepts its reading at once. *)
Theorem debounce_window_cut_at_counter_wrap
  (c : arduino_core) (hw : Arduino) (self : Analog_Buttons) :
  keypad_state self = KEYPAD_STATE_DEBOUNCING ->
  is_ulong (debounce_timestamp self) ->
  0 <= debounce_milliseconds self < ULONG_MODULUS ->
  ULONG_MODULUS <= debounce_timestamp self + debounce_milliseconds self ->
  is_ulong (millis hw) ->
  debounce_timestamp self <= millis hw ->
  read_key c hw self =
    (determine_button c hw self,
     mkAnalog_Buttons (pin self) (number_buttons self)
       (repeat_milliseconds self) (debounce_milliseconds self)
       (determine_button c hw self) KEYPAD_STATE_IDLE
       (debounce_timestamp self) (millis hw)).
Proof.
  intros Hph [Hts0 Hts1] [Hdb0 Hdb1] Hover [Hn0 Hn1] Hle.
  rewrite read_key_debouncing by exact Hph. unfold get_debounce.
  assert (E : ulong_add (debounce_timestamp self) (to_ulong (debounce_milliseconds self))
              = debounce_timestamp self + debounce_milliseconds self - ULONG_MODULUS).
  { unfold ulong_add. rewrite (to_ulong_small (debounce_milliseconds self))
      by (split; assumption).
    unfold to_ulong, ULONG_MODULUS in *.
    symmetry. apply Z.mod_unique with (q := 1); lia. }
  rewrite E.
  destruct (Z.gtb_spec (millis hw)
              (debounce_timestamp self + debounce_milliseconds self - ULONG_MODULUS));
    [reflexivity | lia].
Qed.

Lemma debounce_window_cut_at_counter_wrap_witness :
  let hw := mkArduino (fun _ => 0) 4294967281 in
  let self := mkAnalog_Buttons 0 3 0 50 (-1) KEYPAD_STATE_DEBOUNCING 4294967280 10 in
  ULONG_MODULUS <= debounce_timestamp self + debounce_milliseconds self /\
  read_key AVR hw self =
    (3, mkAnalog_Buttons 0 3 0 50 3 KEYPAD_STATE_IDLE 4294967280 4294967281).
Proof.
  split.
  - discriminate.
  - refine (debounce_window_cut_at_counter_wrap AVR
              (mkArduino (fun _ => 0) 4294967281)
              (mkAnalog_Buttons 0 3 0 50 (-1) KEYPAD_STATE_DEBOUNCING 4294967280 10)
              eq_refl _ _ _ _ _).
    + split; [discriminate | reflexivity].
    + split; [discriminate | reflexivity].
    + discriminate.
    + split; [discriminate | reflexivity].
    + discriminate.
Defined.

(** X7: a negative debounce time gives no debouncing.  The setter takes
    any [int]; with [debounce_milliseconds < 0] and
    [debounce_timestamp + debounce_milliseconds] not negative, a poll in
    the DEBOUNCING phase whose clock value is at least
    [debounce_timestamp] accepts its reading at once. *)
Theorem negative_debounce_accepts_at_once
  (c : arduino_core) (hw : Arduino) (self : Analog_Buttons) (milliseconds : Z) :
  keypad_state self = KEYPAD_STATE_DEBOUNCING ->
  is_ulong (debounce_timestamp self) ->
  milliseconds < 0 ->
  0 <= debounce_timestamp self + milliseconds ->
  is_ulong (millis hw) ->
  debounce_timestamp self <= millis hw ->
  read_key c hw (set_debounce milliseconds self) =
    (determine_button c hw self,
     mkAnalog_Buttons (pin self) (number_buttons self)
       (repeat_milliseconds self) milliseconds
       (determine_button c hw self) KEYPAD_STATE_IDLE
       (debounce_timestamp self) (millis hw)).
Proof.
  intros Hph [Hts0 Hts1] Hneg Hsum [Hn0 Hn1] Hle.
  rewrite read_key_debouncing by exact Hph.
  unfold get_debounce. cbn [set_debounce debounce_milliseconds debounce_timestamp].
  assert (E : ulong_add (debounce_timestamp self) (to_ulong milliseconds)
              = debounce_timestamp self + milliseconds).
  { unfold ulong_add, to_ulong, ULONG_MODULUS in *.
    assert (E1 : milliseconds mod 2 ^ 32 = milliseconds + 2 ^ 32).
    { symmetry. apply Z.mod_unique with (q := -1); lia. }
    rewrite E1. symmetry. apply Z.mod_unique with (q := 1); lia. }
  rewrite E.
  destruct (Z.gtb_spec (millis hw) (debounce_timestamp self + milliseconds));
    [reflexivity | lia].
Qed.

Lemma negative_debounce_accepts_at_once_witness :
  let hw := mkArduino (fun _ => 0) 100 in
  let self := mkAnalog_Buttons 0 3 0 50 (-1) KEYPAD_STATE_DEBOUNCING 100 10 in
  -1 < 0 /\
  read_key AVR hw (set_debounce (-1) self) =
    (3, mkAnalog_Buttons 0 3 0 (-1) 3 KEYPAD_STATE_IDLE 100 100).
Proof.
  split.
  - reflexivity.
  - refine (negative_debounce_accepts_at_once AVR
              (mkArduino (fun _ => 0) 100)
              (mkAnalog_Buttons 0 3 0 50 (-1) KEYPAD_STATE_DEBOUNCING 100 10)
              (-1) eq_refl _ _ _ _ _).
    + split; [discriminate | reflexivity].
    + reflexivity.
    + discriminate.
    + split; [discriminate | reflexivity].
    + discriminate.
Defined.

(** ** A key held from power-up *)

(** X8: with the constructor's settings, a key gives one event.  On a
    freshly constructed object, let the first poll read a key (not -1,
    the constructor's [last_key]); however the pin reads in the 50 ms
    after that poll, the polls return -1; the first poll later than 50 ms
    returns its reading [r]; and polls after it that keep reading [r]
    return -1, however late. *)
Theorem held_key_gives_one_event
  (c : arduino_core) (hw0 hw1 hw2 : Arduino) (pin_number number_of_buttons : Z)
  (window steady : list Arduino) :
  let self := Analog_Buttons_new hw0 pin_number number_of_buttons in
  let r := determine_button c hw2 self in
  determine_button c hw1 self <> -1 ->
  is_ulong (millis hw1) ->
  Forall (fun h => millis h <= millis hw1 + 50) window ->
  is_ulong (millis hw2) ->
  millis hw2 > millis hw1 + 50 ->
  Forall (fun h => determine_button c h self = r) steady ->
  poll_all c (hw1 :: window ++ hw2 :: steady) self =
    (-1 :: map (fun _ => -1) window ++ r :: map (fun _ => -1) steady,
     mkAnalog_Buttons pin_number number_of_buttons 0 50 r KEYPAD_STATE_IDLE
       (millis hw1) (millis hw2)).
Proof.
  intros self r Hkey Hn1 Hwin Hn2 Hgt Hsteady.
  rewrite poll_all_cons.
  rewrite read_key_idle_changed by (reflexivity || (cbn; congruence)).
  cbn [fst snd].
  set (staged := set_keypad_state KEYPAD_STATE_DEBOUNCING
                   (set_debounce_timestamp (millis hw1) self)).
  set (settled := mkAnalog_Buttons pin_number number_of_buttons 0 50 r
                    KEYPAD_STATE_IDLE (millis hw1) (millis hw2)).
  assert (Hwait : poll_all c window staged = (map (fun _ => -1) window, staged)).
  { apply poll_all_idle_run. apply Forall_impl with (2 := Hwin).
    intros h Hh. destruct Hn1 as [Hn1 _]. destruct Hn2 as [_ Hn2].
    apply read_key_debouncing_waits; try reflexivity;
      change (debounce_timestamp staged) with (millis hw1);
      change (debounce_milliseconds staged) with 50; lia. }
  assert (Hacc : read_key c hw2 staged = (r, settled)).
  { destruct Hn1 as [Hn1 _].
    apply read_key_debouncing_accepts; try reflexivity; try assumption;
      change (debounce_timestamp staged) with (millis hw1);
      change (debounce_milliseconds staged) with 50; lia. }
  assert (Hend : poll_all c steady settled = (map (fun _ => -1) steady, settled)).
  { apply poll_all_idle_run. apply Forall_impl with (2 := Hsteady).
    intros h Hk.
    apply read_key_steady_waits; [reflexivity | exact Hk | left; cbn; lia]. }
  rewrite poll_all_app, Hwait. cbn [fst snd].
  rewrite poll_all_cons, Hacc. cbn [fst snd].
  rewrite Hend. reflexivity.
Qed.

Lemma held_key_gives_one_event_witness :
  let hw0 := mkArduino (fun _ => 767) 0 in
  let hw1 := mkArduino (fun _ => 0) 5 in
  let hw2 := mkArduino (fun _ => 0) 56 in
  let window := [mkArduino (fun _ => 300) 20; mkArduino (fun _ => 0) 55] in
  let steady := [mkArduino (fun _ => 0) 70; mkArduino (fun _ => 0) 100000] in
  millis hw2 > millis hw1 + 50 /\
  poll_all AVR (hw1 :: window ++ hw2 :: steady) (Analog_Buttons_new hw0 0 3) =
    ([-1; -1; -1; 3; -1; -1],
     mkAnalog_Buttons 0 3 0 50 3 KEYPAD_STATE_IDLE 5 56).
Proof.
  split.
  - reflexivity.
  - refine (held_key_gives_one_event AVR
              (mkArduino (fun _ => 767) 0) (mkArduino (fun _ => 0) 5)
              (mkArduino (fun _ => 0) 56) 0 3
              [mkArduino (fun _ => 300) 20; mkArduino (fun _ => 0) 55]
              [mkArduino (fun _ => 0) 70; mkArduino (fun _ => 0) 100000]
              _ _ _ _ _ _).
    + vm_compute. discriminate.
    + split; [discriminate | reflexivity].
    + repeat constructor; discriminate.
    + split; [discriminate | reflexivity].
    + reflexivity.
    + repeat constructor; vm_compute; reflexivity.
Defined.

(** ** The two ends of the resolver's range *)

Lemma round_half_away_near (q : Q) (z : Z) :
  (- (1 # 2) < q - inject_Z z)%Q -> (q - inject_Z z < 1 # 2)%Q ->
  round_half_away q = z.
Proof.
  intros Hlo Hhi. unfold round_half_away.
  destruct (Qle_bool 0 q) eqn:E.
  - apply Qfloor_unique.
    + lra.
    + rewrite inject_Z_plus. change (inject_Z 1) with 1%Q. lra.
  - replace z with (- - z) by lia. f_equal.
    apply Qfloor_unique.
    + rewrite inject_Z_opp. lra.
    + rewrite inject_Z_plus, inject_Z_opp. change (inject_Z 1) with 1%Q. lra.
Qed.

(** The button count as a [double] is within [3 * 2^-24] of the count. *)
Lemma buttons_as_double_near (c : arduino_core) (N : Z) :
  2 <= N <= 2 ^ 31 ->
  exists m e,
    buttons_as_double c N = S754_finite false m e /\
    (19 # 10 <= mag m e)%Q /\ (mag m e <= 4294967296)%Q /\
    (- (3 * inject_Z N) <= (mag m e - inject_Z N) * 16777216)%Q /\
    ((mag m e - inject_Z N) * 16777216 <= 3 * inject_Z N)%Q.
Proof.
  intros HN. destruct N as [|p|p]; try lia.
  unfold buttons_as_double, FP.of_Z, binary_normalize. cbn [fprec femax binary32].
  assert (Ep : (mag p 0 == inject_Z (Zpos p))%Q).
  { unfold mag. change (pow2 0) with 1%Q. ring. }
  assert (Hp : (2 <= inject_Z (Zpos p) /\ inject_Z (Zpos p) <= 2147483648)%Q).
  { change 2%Q with (inject_Z 2). change 2147483648%Q with (inject_Z (2 ^ 31)).
    rewrite <- !Zle_Qle. exact HN. }
  destruct (binary_round_value 24 128 ltac:(lia) ltac:(lia) false p 0 (-126) 127)
    as (m3 & e3 & E3 & _ & Herr3).
  - unfold emin. lia.
  - lia.
  - rewrite Ep. apply Qle_trans with (pow2 0); [apply pow2_le; lia|].
    change (pow2 0) with 1%Q. lra.
  - rewrite Ep. apply Qle_lt_trans with (pow2 31); [|apply pow2_lt; lia].
    change (pow2 31) with 2147483648%Q. lra.
  - rewrite E3. cbn [FP.cast].
    destruct (rel_error _ _ _ _ 24 ltac:(lia) Herr3 (Qle_refl _)) as [L3 U3].
    rewrite Ep in L3, U3.
    assert (HD : 24 <= fprec (double_format c) /\ 128 <= femax (double_format c) /\
                 fprec (double_format c) < femax (double_format c))
      by (destruct c; cbn; lia).
    destruct HD as (D1 & D3 & D5).
    destruct (binary_round_value (fprec (double_format c)) (femax (double_format c))
                ltac:(lia) D5 false m3 e3 0 33)
      as (m4 & e4 & E4 & _ & Herr4).
    + unfold emin. lia.
    + lia.
    + change (pow2 0) with 1%Q. lra.
    + change (pow2 33) with 8589934592%Q. lra.
    + exists m4, e4. split; [exact E4|].
      destruct (rel_error _ _ _ _ _ D1 Herr4 (Qle_refl _)) as [L4 U4].
      repeat split; lra.
Qed.

Lemma double_format_facts (c : arduino_core) :
  24 <= fprec (double_format c) /\ fprec (double_format c) <= 64 /\
  128 <= femax (double_format c) /\
  fprec (double_format c) + 40 <= femax (double_format c).
Proof. destruct c; cbn; lia. Qed.

Lemma button_rounded_at_0 (c : arduino_core) (N : Z) :
  1 <= N <= 32767 -> button_rounded c N 0 = N.
Proof.
  intros HN.
  destruct (Z.eq_dec N 1) as [->|Hne]; [destruct c; vm_compute; reflexivity|].
  pose proof (all_samples_ok c 0 ltac:(lia)) as Ok.
  unfold sample_ok in Ok. apply andb_true_iff in Ok as [Ha Hv].
  destruct (double_format_facts c) as (D1 & D2 & D3 & D4).
  destruct (buttons_as_double_near c N ltac:(lia)) as (m & e & EN & Hnlo & Hnhi & LN & UN).
  destruct (button_approx_error _ _ D1 D2 D3 D4 _ _ m e Ha Hv Hnlo Hnhi) as [L U].
  rewrite <- EN in L, U.
  change (FP.cast binary32 _) with (button_approx_of c N 0) in L, U.
  assert (Ea : (FP.to_Q (one_minus_voltage c 0) == 1)%Q)
    by (destruct c; vm_compute; reflexivity).
  assert (Ev : (FP.to_Q (voltage_as_double c 0) == 0)%Q)
    by (destruct c; vm_compute; reflexivity).
  rewrite Ea, Ev in L, U.
  unfold button_rounded. rewrite roundf_to_int_Q.
  assert (HNq : (2 <= inject_Z N /\ inject_Z N <= 32767)%Q).
  { change 2%Q with (inject_Z 2). change 32767%Q with (inject_Z 32767).
    rewrite <- !Zle_Qle. lia. }
  apply round_half_away_near;
    set (B := FP.to_Q (button_approx_of c N 0)) in *;
    set (n := mag m e) in *; set (Nq := inject_Z N) in *; clearbody B n Nq; lra.
Qed.

Lemma button_rounded_at_1023 (c : arduino_core) (N : Z) :
  1 <= N <= 32767 -> button_rounded c N 1023 = 5 - 4 * N.
Proof.
  intros HN.
  destruct (Z.eq_dec N 1) as [->|Hne]; [destruct c; vm_compute; reflexivity|].
  pose proof (all_samples_ok c 1023 ltac:(lia)) as Ok.
  unfold sample_ok in Ok. apply andb_true_iff in Ok as [Ha Hv].
  destruct (double_format_facts c) as (D1 & D2 & D3 & D4).
  destruct (buttons_as_double_near c N ltac:(lia)) as (m & e & EN & Hnlo & Hnhi & LN & UN).
  destruct (button_approx_error _ _ D1 D2 D3 D4 _ _ m e Ha Hv Hnlo Hnhi) as [L U].
  rewrite <- EN in L, U.
  change (FP.cast binary32 _) with (button_approx_of c N 1023) in L, U.
  assert (Ea : (FP.to_Q (one_minus_voltage c 1023) == -4)%Q)
    by (destruct c; vm_compute; reflexivity).
  assert (Ev : (FP.to_Q (voltage_as_double c 1023) == 5)%Q)
    by (destruct c; vm_compute; reflexivity).
  rewrite Ea, Ev in L, U.
  unfold button_rounded. rewrite roundf_to_int_Q.
  assert (HNq : (2 <= inject_Z N /\ inject_Z N <= 32767)%Q).
  { change 2%Q with (inject_Z 2). change 32767%Q with (inject_Z 32767).
    rewrite <- !Zle_Qle. lia. }
  assert (Ez : (inject_Z (5 - 4 * N) == 5 - 4 * inject_Z N)%Q).
  { rewrite inject_Z_sub, inject_Z_mult. reflexivity. }
  apply round_half_away_near;
    set (B := FP.to_Q (button_approx_of c N 1023)) in *;
    set (n := mag m e) in *; set (Nq := inject_Z N) in *;
    set (z := inject_Z (5 - 4 * N)) in *; clearbody B n Nq z; lra.
Qed.

(** ** The resolver's range *)

Lemma INT_MAX_ge (c : arduino_core) : 32767 <= INT_MAX c.
Proof. destruct c; vm_compute; discriminate. Qed.

Lemma button_rounded_bounds (c : arduino_core) (N s : Z) :
  1 <= N <= 32767 -> 0 <= s <= 1023 ->
  5 - 4 * N <= button_rounded c N s <= N.
Proof.
  intros HN Hs. pose proof (INT_MAX_ge c) as HM.
  pose proof (button_rounded_at_0 c N HN) as E0.
  pose proof (button_rounded_at_1023 c N HN) as E1.
  pose proof (button_rounded_chain c N s (Z.to_nat (1023 - s))
                ltac:(lia) ltac:(lia) ltac:(lia)) as Hlo.
  pose proof (button_rounded_chain c N 0 (Z.to_nat s)
                ltac:(lia) ltac:(lia) ltac:(lia)) as Hhi.
  replace (s + Z.of_nat (Z.to_nat (1023 - s))) with 1023 in Hlo by lia.
  replace (0 + Z.of_nat (Z.to_nat s)) with s in Hhi by lia.
  lia.
Qed.

(** X9: the values of the resolver.  For a number of buttons from 1 to
    32767 with [5 - 4 * number_buttons] not below the least [int] (so
    that the conversion to [int] is defined: up to 8193 buttons where
    [int] has 16 bits) and a sample of the converter, [determine_button]
    returns a value from [5 - 4 * number_buttons] to [number_buttons]; it
    returns [number_buttons] at sample 0 (the pin shorted to ground by the
    top button) and [5 - 4 * number_buttons] at sample 1023. *)
Theorem resolver_range (c : arduino_core) (N s : Z) :
  1 <= N <= 32767 -> INT_MIN c <= 5 - 4 * N -> 0 <= s <= 1023 ->
  fits_int c (button_rounded c N s) /\
  5 - 4 * N <= resolve c N s <= N /\
  resolve c N 0 = N /\
  resolve c N 1023 = 5 - 4 * N.
Proof.
  intros HN Hmin Hs.
  split.
  { pose proof (button_rounded_bounds c N s HN Hs).
    pose proof (INT_MAX_ge c). unfold fits_int. lia. }
  assert (R : forall t, 0 <= t <= 1023 -> resolve c N t = button_rounded c N t).
  { intros t Ht. pose proof (button_rounded_bounds c N t HN Ht).
    unfold resolve. destruct (Z.gtb_spec (button_rounded c N t) N); [lia|reflexivity]. }
  rewrite !R by lia.
  split; [apply button_rounded_bounds; assumption|].
  split; [apply button_rounded_at_0 | apply button_rounded_at_1023]; assumption.
Qed.

Lemma resolver_range_witness :
  1 <= 3 <= 32767 /\ INT_MIN AVR <= 5 - 4 * 3 /\ 0 <= 512 <= 1023 /\
  5 - 4 * 3 <= resolve AVR 3 512 <= 3.
Proof.
  split; [lia|]. split; [vm_compute; discriminate|]. split; [lia|].
  apply (resolver_range AVR 3 512); [lia | vm_compute; discriminate | lia].
Defined.

(** X10: the test for "no button" never fires.  For a number of buttons
    from 1 to 32767 with [5 - 4 * number_buttons] not below the least
    [int] (so that the conversion to [int] is defined) and a sample of the
    converter, the rounded approximation is an [int] that is never greater
    than [number_buttons], so [determine_button] returns it as it is: a -1
    it returns is the rounding of an approximation near -1, not the mark
    of full voltage. *)
Theorem no_button_test_never_fires (c : arduino_core) (N s : Z) :
  1 <= N <= 32767 -> INT_MIN c <= 5 - 4 * N -> 0 <= s <= 1023 ->
  fits_int c (button_rounded c N s) /\
  (button_rounded c N s >? N) = false /\
  resolve c N s = button_rounded c N s.
Proof.
  intros HN Hmin Hs. pose proof (button_rounded_bounds c N s HN Hs) as [Hlo Hle].
  pose proof (INT_MAX_ge c).
  split; [unfold fits_int; lia|].
  unfold resolve.
  destruct (Z.gtb_spec (button_rounded c N s) N); [lia|]. split; reflexivity.
Qed.

Lemma no_button_test_never_fires_witness :
  1 <= 3 <= 32767 /\ INT_MIN AVR <= 5 - 4 * 3 /\ 0 <= 400 <= 1023 /\
  resolve AVR 3 400 = button_rounded AVR 3 400.
Proof.
  split; [lia|]. split; [vm_compute; discriminate|]. split; [lia|].
  apply (no_button_test_never_fires AVR 3 400);
    [lia | vm_compute; discriminate | lia].
Defined.

(** X11: when the conversion to [int] is defined.  For a number of
    buttons from 1 to 32767 with [5 - 4 * number_buttons] not below the
    least [int] (up to 8193 buttons where [int] has 16 bits), the value
    [roundf] gives is an [int] for every sample of the converter. *)
Theorem rounded_approximation_fits_int (c : arduino_core) (N s : Z) :
  1 <= N <= 32767 -> INT_MIN c <= 5 - 4 * N -> 0 <= s <= 1023 ->
  INT_MIN c <= button_rounded c N s <= INT_MAX c.
Proof.
  intros HN Hmin Hs. pose proof (button_rounded_bounds c N s HN Hs).
  pose proof (INT_MAX_ge c). lia.
Qed.

Lemma rounded_approximation_fits_int_witness :
  1 <= 8193 <= 32767 /\ INT_MIN AVR <= 5 - 4 * 8193 /\
  INT_MIN AVR <= button_rounded AVR 8193 1023 <= INT_MAX AVR.
Proof.
  split; [lia|]. split; [vm_compute; discriminate|].
  apply (rounded_approximation_fits_int AVR 8193 1023);
    [lia | vm_compute; discriminate | lia].
Defined.

(** ** The example sketch *)

Lemma string_append_nil_r (s : String.string) : String.append s String.EmptyString = s.
Proof. induction s as [|a s IH]; cbn; [reflexivity | rewrite IH; reflexivity]. Qed.

Lemma string_append_assoc (s1 s2 s3 : String.string) :
  String.append (String.append s1 s2) s3 = String.append s1 (String.append s2 s3).
Proof. induction s1 as [|a s1 IH]; cbn; [reflexivity | rewrite IH; reflexivity]. Qed.

Lemma keypress_lines_app (l1 l2 : list Z) :
  keypress_lines (l1 ++ l2) = String.append (keypress_lines l1) (keypress_lines l2).
Proof.
  induction l1 as [|k l1 IH]; cbn [app keypress_lines].
  - reflexivity.
  - destruct (k =? -1); [exact IH | rewrite IH, string_append_assoc; reflexivity].
Qed.

Lemma keypress_lines_quiet {A : Type} (l : list A) :
  keypress_lines (map (fun _ => -1) l) = String.EmptyString.
Proof. induction l as [|a l IH]; [reflexivity | exact IH]. Qed.

Lemma loop_spec (c : arduino_core) (hw : Arduino) (sk : Sketch) :
  loop c hw sk =
    mkSketch (snd (read_key c hw (buttons sk)))
      (String.append (Serial sk) (keypress_lines [fst (read_key c hw (buttons sk))])).
Proof.
  unfold loop, operator_int.
  destruct (read_key c hw (buttons sk)) as [k b]. cbn [fst snd keypress_lines].
  destruct (k =? -1); cbn [negb].
  - rewrite string_append_nil_r. reflexivity.
  - unfold Serial_println_int, Serial_print, keypress_line. cbn [buttons Serial].
    rewrite string_append_nil_r, !string_append_assoc. reflexivity.
Qed.

Lemma loops_spec (c : arduino_core) (hws : list Arduino) : forall sk,
  loops c hws sk =
    mkSketch (snd (poll_all c hws (buttons sk)))
      (String.append (Serial sk) (keypress_lines (fst (poll_all c hws (buttons sk))))).
Proof.
  induction hws as [|hw rest IH]; intros sk.
  - cbn. rewrite string_append_nil_r. destruct sk; reflexivity.
  - cbn [loops]. rewrite IH, loop_spec, poll_all_cons. cbn [buttons Serial fst snd].
    rewrite string_append_assoc.
    change (fst (read_key c hw (buttons sk))
            :: fst (poll_all c rest (snd (read_key c hw (buttons sk)))))
      with ([fst (read_key c hw (buttons sk))]
            ++ fst (poll_all c rest (snd (read_key c hw (buttons sk))))).
    rewrite keypress_lines_app. reflexivity.
Qed.

(** X12: what the sketch writes.  After any number of passes of
    [loop( )], the object [buttons] is what the same polls of [read_key]
    leave, and the serial port has received, after what was there, one
    line [Keypress: k] for each poll whose result [k] is not -1, in
    order: the polls with no event write nothing, and neither does the
    acceptance of a reading of -1. *)
Theorem sketch_prints_the_reported_keys
  (c : arduino_core) (hws : list Arduino) (sk : Sketch) :
  buttons (loops c hws sk) = snd (poll_all c hws (buttons sk)) /\
  Serial (loops c hws sk) =
    String.append (Serial sk) (keypress_lines (fst (poll_all c hws (buttons sk)))).
Proof. rewrite loops_spec. split; reflexivity. Qed.

(** X13: a key held from power-up, in the sketch.  Let the pin read a
    sample that resolves, with the sketch's three buttons, to a key [r]
    other than -1.  The first pass of [loop( )], the passes in the 50 ms
    after it (whatever the pin reads at those), the first pass later than
    50 ms, the passes in the 250 ms after that one and the first pass
    later than 250 ms write two lines in all: [Keypress: r], twice. *)
Theorem sketch_held_key_prints_and_repeats
  (c : arduino_core) (hw0 hw1 hw2 hw3 : Arduino) (A0 s : Z)
  (window quiet : list Arduino) :
  let r := resolve c 3 s in
  r <> -1 ->
  analogRead hw1 A0 = s ->
  is_ulong (millis hw1) ->
  Forall (fun h => millis h <= millis hw1 + 50) window ->
  analogRead hw2 A0 = s ->
  is_ulong (millis hw2) ->
  millis hw2 > millis hw1 + 50 ->
  Forall (fun h => analogRead h A0 = s /\ millis h <= millis hw2 + 250) quiet ->
  analogRead hw3 A0 = s ->
  is_ulong (millis hw3) ->
  millis hw3 > millis hw2 + 250 ->
  Serial (loops c (hw1 :: window ++ hw2 :: quiet ++ [hw3])
            (setup (sketch_start hw0 A0))) =
    String.append (keypress_line r) (keypress_line r).
Proof.
  intros r Hr Hs1 Hn1 Hwin Hs2 Hn2 Hgt2 Hquiet Hs3 Hn3 Hgt3.
  rewrite loops_spec.
  change (Serial (setup (sketch_start hw0 A0))) with String.EmptyString.
  cbn [String.append].
  set (self := buttons (setup (sketch_start hw0 A0))).
  set (staged := set_keypad_state KEYPAD_STATE_DEBOUNCING
                   (set_debounce_timestamp (millis hw1) self)).
  set (settled := mkAnalog_Buttons A0 3 250 50 r
                    KEYPAD_STATE_IDLE (millis hw1) (millis hw2)).
  assert (Hread : forall h b, pin b = A0 -> number_buttons b = 3 ->
                              analogRead h A0 = s -> determine_button c h b = r).
  { intros h b Hp Hb Hh. unfold determine_button. rewrite Hp, Hb, Hh. reflexivity. }
  assert (H1 : read_key c hw1 self = (-1, staged)).
  { apply read_key_idle_changed; [reflexivity|].
    rewrite (Hread hw1 self) by (reflexivity || exact Hs1).
    change (last_key self) with (-1). congruence. }
  assert (Hwait : poll_all c window staged = (map (fun _ => -1) window, staged)).
  { apply poll_all_idle_run. apply Forall_impl with (2 := Hwin).
    intros h Hh. destruct Hn1 as [Hn1 _]. destruct Hn2 as [_ Hn2].
    apply read_key_debouncing_waits; try reflexivity;
      change (debounce_timestamp staged) with (millis hw1);
      change (debounce_milliseconds staged) with 50; lia. }
  assert (Hacc : read_key c hw2 staged = (r, settled)).
  { destruct Hn1 as [Hn1 _].
    rewrite read_key_debouncing_accepts; try reflexivity; try assumption;
      change (debounce_timestamp staged) with (millis hw1);
      change (debounce_milliseconds staged) with 50; try lia.
    rewrite (Hread hw2 staged) by (reflexivity || exact Hs2). reflexivity. }
  assert (Hrep : poll_all c (quiet ++ [hw3]) settled =
                 (map (fun _ => -1) quiet ++ [r],
                  set_repeating_timestamp (millis hw3) settled)).
  { assert (Hq : poll_all c quiet settled = (map (fun _ => -1) quiet, settled)).
    { apply poll_all_idle_run. apply Forall_impl with (2 := Hquiet).
      intros h [Hh Hle]. destruct Hn2 as [Hn2 _]. destruct Hn3 as [_ Hn3].
      apply read_key_steady_waits; [reflexivity | |].
      - apply Hread; reflexivity || exact Hh.
      - right. change (repeating_timestamp settled) with (millis hw2).
        change (repeat_milliseconds settled) with 250. lia. }
    rewrite poll_all_app, Hq. cbn [fst snd poll_all].
    rewrite read_key_steady_repeats; try reflexivity; try assumption.
    - apply Hread; reflexivity || exact Hs3.
    - change (repeating_timestamp settled) with (millis hw2). destruct Hn2; lia. }
  rewrite poll_all_cons, H1. cbn [fst snd].
  change (window ++ hw2 :: quiet ++ [hw3]) with (window ++ [hw2] ++ (quiet ++ [hw3])).
  rewrite poll_all_app, Hwait. cbn [fst snd].
  cbn [app]. rewrite poll_all_cons, Hacc. cbn [fst snd]. rewrite Hrep. cbn [fst].
  change (-1 :: map (fun _ : Arduino => -1) window ++ r :: map (fun _ : Arduino => -1) quiet ++ [r])
    with ([-1] ++ map (fun _ : Arduino => -1) window ++ [r] ++ map (fun _ : Arduino => -1) quiet ++ [r]).
  rewrite !keypress_lines_app, !keypress_lines_quiet.
  cbn [keypress_lines]. change (-1 =? -1) with true. cbv iota.
  destruct (Z.eqb_spec r (-1)); [contradiction|].
  cbn [String.append]. rewrite !string_append_nil_r. reflexivity.
Qed.

Lemma sketch_held_key_prints_and_repeats_witness :
  let hw0 := mkArduino (fun _ => 767) 0 in
  let hw1 := mkArduino (fun _ => 0) 5 in
  let hw2 := mkArduino (fun _ => 0) 56 in
  let hw3 := mkArduino (fun _ => 0) 307 in
  let window := [mkArduino (fun _ => 300) 20; mkArduino (fun _ => 0) 55] in
  let quiet := [mkArduino (fun _ => 0) 70; mkArduino (fun _ => 0) 306] in
  resolve AVR 3 0 <> -1 /\
  Serial (loops AVR (hw1 :: window ++ hw2 :: quiet ++ [hw3])
            (setup (sketch_start hw0 14))) =
    String.append (keypress_line 3) (keypress_line 3).
Proof.
  split.
  - vm_compute. discriminate.
  - refine (sketch_held_key_prints_and_repeats AVR
              (mkArduino (fun _ => 767) 0) (mkArduino (fun _ => 0) 5)
              (mkArduino (fun _ => 0) 56) (mkArduino (fun _ => 0) 307) 14 0
              [mkArduino (fun _ => 300) 20; mkArduino (fun _ => 0) 55]
              [mkArduino (fun _ => 0) 70; mkArduino (fun _ => 0) 306]
              _ eq_refl _ _ eq_refl _ _ _ eq_refl _ _).
    + vm_compute. discriminate.
    + split; [discriminate | reflexivity].
    + repeat constructor; discriminate.
    + split; [discriminate | reflexivity].
    + reflexivity.
    + repeat constructor; discriminate.
    + split; [discriminate | reflexivity].
    + reflexivity.
Defined.
